(** * wsgidav.property_manager: the dead-property store

    A shallow embedding of [src/wsgidav/property_manager.py]: the in-memory
    [PropertyManager] and its subclass [ShelvePropertyManager], followed by
    the properties of the store that the specification states.

    Modelling decisions, all taken from the source:

    - [self._dict] is duck-typed: it holds [None], a Python [dict] (in-memory
      class) or an open [shelve.Shelf] (durable class).  The three cases are
      the cases of [option backend]; every use of [self._dict] dispatches
      on them, and a use that Python rejects raises the exception Python
      raises ([TypeError] for [in] and subscripts on [None],
      [AttributeError] for a missing method).
    - A Python [dict] stores references.  The inner dicts held by the
      in-memory store live in [heap] and the outer dict maps a resource to
      a location, so that the in-place update [locatordict[propname] = ...]
      is visible through every reference to that object.
    - A [Shelf] opened with [writeback=False] pickles on assignment and
      unpickles a new object on every read: it stores values, and what it
      hands out is private to the caller.
    - A dict object that only a local variable refers to (a new [{}], an
      unpickled copy, the result of [.copy()]) is carried by value
      ([Local]) until it is stored into a Python dict, which is when it
      gets its location.
    - [sync()] and [close()] of the shelf write its content to the file at
      its path; [shelve.open] reads the content of the file, or starts empty
      when there is none.  Input/output failures of the file are not
      modelled.
    - Methods are functions in a state-and-exception monad.  An exception
      leaves the state as it was when it was raised.  The reader/writer
      lock ([rw_lock.ReadWriteLock], re-entrant, an external collaborator)
      and the module logger have no effect on the store and are left out:
      every method is one sequential critical section.
    - Property values are opaque data of a type [Value]; the store never
      looks into a value, and [None] is kept apart ([option Value]) where
      Python allows it: the argument of [writeProperty] and the result of
      [getProperty].
    - Formatting a message with [%] (for the logger, and in the loop of
      [_check]) is taken to succeed and has no effect on the store.
    - [assert] statements are executed and [__debug__] is true (Python run
      without [-O]). *)

From stdpp Require Import gmap strings list fin_maps.
From Stdlib Require Import ZArith.

(** ** Exceptions, classes, locations *)

Inductive exn : Set :=
  | AssertionError
  | TypeError
  | AttributeError
  | KeyError.

(** The class of the instance; the durable class carries [_storagePath]. *)
Inductive klass : Set :=
  | PropertyManager
  | ShelvePropertyManager (_storagePath : string).

Definition loc := positive.

Definition __debug__ : bool := true.

Declare Scope py_scope.

Section Store.

Context {Value : Type}.

Local Abbreviation PropertySet := (gmap string Value).

(** What [self._dict] can hold when it is not [None]. *)
Inductive backend : Type :=
  | PyDict (top : gmap string loc)
  | Shelf (path : string) (db : gmap string PropertySet).

(** A dict object as a local variable sees it. *)
Inductive dictobj : Type :=
  | Ref (l : loc)
  | Local (m : PropertySet).

Record state : Type := mkState {
  cls : klass;
  _dict : option backend;
  _loaded : bool;
  _verbose : Z;
  heap : gmap loc PropertySet;
  disk : gmap string (gmap string PropertySet);
}.

Definition set_dict (d : option backend) (s : state) : state :=
  mkState (cls s) d (_loaded s) (_verbose s) (heap s) (disk s).

Definition set_loaded (b : bool) (s : state) : state :=
  mkState (cls s) (_dict s) b (_verbose s) (heap s) (disk s).

Definition set_heap (h : gmap loc PropertySet) (s : state) : state :=
  mkState (cls s) (_dict s) (_loaded s) (_verbose s) h (disk s).

Definition set_disk (d : gmap string (gmap string PropertySet)) (s : state)
  : state :=
  mkState (cls s) (_dict s) (_loaded s) (_verbose s) (heap s) d.

(** ** The state-and-exception monad *)

Definition M (A : Type) : Type := state → state * (exn + A).

Definition ret {A} (a : A) : M A := λ s, (s, inr a).

Definition raise {A} (e : exn) : M A := λ s, (s, inl e).

Definition bind {A B} (m : M A) (k : A → M B) : M B :=
  λ s, match m s with
       | (s', inr a) => k a s'
       | (s', inl e) => (s', inl e)
       end.

Definition get : M state := λ s, (s, inr s).

Definition modify (f : state → state) : M unit := λ s, (f s, inr tt).

(** [try: body except Exception: handler] *)
Definition try_except {A} (body : M A) (handler : exn → M A) : M A :=
  λ s, match body s with
       | (s', inl e) => handler e s'
       | r => r
       end.

(** [assert c] *)
Definition assert (c : bool) : M unit :=
  if c then ret tt else raise AssertionError.

Local Notation "x ← y ; z" := (bind y (λ x, z))
  (at level 20, y at level 100, z at level 200, only parsing) : py_scope.
Local Notation "x ;; z" := (bind x (λ _, z))
  (at level 100, z at level 200, only parsing, right associativity)
  : py_scope.
Local Open Scope py_scope.

(** ** Python dict objects *)

Definition isSome {A} (o : option A) : bool :=
  match o with Some _ => true | None => false end.

(** The content of the object behind a local variable. *)
Definition obj_content (o : dictobj) (s : state) : PropertySet :=
  match o with
  | Ref l => default ∅ (heap s !! l)
  | Local m => m
  end.

(** [o[p] = v]: in place, seen through every reference to the object. *)
Definition obj_setitem (o : dictobj) (p : string) (v : Value) : M dictobj :=
  λ s, match o with
       | Ref l =>
           (set_heap (<[l := <[p := v]> (obj_content o s)]> (heap s)) s,
            inr (Ref l))
       | Local m => (s, inr (Local (<[p := v]> m)))
       end.

(** [del o[p]] *)
Definition obj_delitem (o : dictobj) (p : string) : M dictobj :=
  λ s, match obj_content o s !! p with
       | None => (s, inl KeyError)
       | Some _ =>
           match o with
           | Ref l =>
               (set_heap (<[l := delete p (obj_content o s)]> (heap s)) s,
                inr (Ref l))
           | Local m => (s, inr (Local (delete p m)))
           end
       end.

(** [o.copy()]: a new dict object with the same entries. *)
Definition obj_copy (o : dictobj) : M dictobj :=
  λ s, (s, inr (Local (obj_content o s))).

(** ** [self._dict] as the methods use it *)

(** [k in self._dict] *)
Definition dict_contains (k : string) : M bool :=
  λ s, match _dict s with
       | None => (s, inl TypeError)
       | Some (PyDict top) => (s, inr (isSome (top !! k)))
       | Some (Shelf _ db) => (s, inr (isSome (db !! k)))
       end.

(** [self._dict[k]]: the stored object itself from a dict, an unpickled
    copy from a shelf. *)
Definition dict_getitem (k : string) : M dictobj :=
  λ s, match _dict s with
       | None => (s, inl TypeError)
       | Some (PyDict top) =>
           match top !! k with
           | Some l => (s, inr (Ref l))
           | None => (s, inl KeyError)
           end
       | Some (Shelf _ db) =>
           match db !! k with
           | Some m => (s, inr (Local m))
           | None => (s, inl KeyError)
           end
       end.

(** [self._dict[k] = o]: a dict keeps the reference, a shelf pickles the
    content. *)
Definition dict_setitem (k : string) (o : dictobj) : M unit :=
  λ s, match _dict s with
       | None => (s, inl TypeError)
       | Some (PyDict top) =>
           match o with
           | Ref l => (set_dict (Some (PyDict (<[k := l]> top))) s, inr tt)
           | Local m =>
               let l := fresh (dom (heap s)) in
               (set_dict (Some (PyDict (<[k := l]> top)))
                  (set_heap (<[l := m]> (heap s)) s), inr tt)
           end
       | Some (Shelf path db) =>
           (set_dict (Some (Shelf path (<[k := obj_content o s]> db))) s,
            inr tt)
       end.

(** [del self._dict[k]] *)
Definition dict_delitem (k : string) : M unit :=
  λ s, match _dict s with
       | None => (s, inl TypeError)
       | Some (PyDict top) =>
           match top !! k with
           | Some _ => (set_dict (Some (PyDict (delete k top))) s, inr tt)
           | None => (s, inl KeyError)
           end
       | Some (Shelf path db) =>
           match db !! k with
           | Some _ => (set_dict (Some (Shelf path (delete k db))) s, inr tt)
           | None => (s, inl KeyError)
           end
       end.

(** [self._dict.items()] *)
Definition dict_items : M (list (string * PropertySet)) :=
  λ s, match _dict s with
       | None => (s, inl AttributeError)
       | Some (PyDict top) =>
           (s, inr (map_to_list ((λ l, obj_content (Ref l) s) <$> top)))
       | Some (Shelf _ db) => (s, inr (map_to_list db))
       end.

(** [self._dict.sync()]: only a shelf has it. *)
Definition dict_sync : M unit :=
  λ s, match _dict s with
       | Some (Shelf path db) => (set_disk (<[path := db]> (disk s)) s, inr tt)
       | _ => (s, inl AttributeError)
       end.

(** [self._dict.close()]: a shelf writes itself out and closes. *)
Definition dict_close : M unit :=
  λ s, match _dict s with
       | Some (Shelf path db) => (set_disk (<[path := db]> (disk s)) s, inr tt)
       | _ => (s, inl AttributeError)
       end.

(** [shelve.open(path, writeback=False)] *)
Definition shelve_open (path : string) : M backend :=
  λ s, (s, inr (Shelf path (default ∅ (disk s !! path)))).

(** Truth value of a Python string. *)
Definition truthy (x : string) : bool :=
  match x with EmptyString => false | String _ _ => true end.

(** [if c: m] *)
Definition when (c : bool) (m : M unit) : M unit :=
  if c then m else ret tt.

(** [__debug__ and self._verbose >= 2] *)
Definition diagnostic (s : state) : bool :=
  __debug__ && (2 <=? _verbose s)%Z.

(** ** The methods *)

(** [__init__]; the durable class is given [os.path.abspath(storagePath)]
    in its class. [h] and [d] are the heap and the files at that time. *)
Definition __init__ (c : klass) (h : gmap loc PropertySet)
    (d : gmap string (gmap string PropertySet)) : state :=
  mkState c None false 2 h d.

Definition _check (msg : string) : M bool :=
  try_except
    (s ← get;
     if negb (_loaded s) then ret true
     else
       (* for k, v in self._dict.items(): _ = "%s, %s" % (k, v) *)
       _ ← dict_items;
       ret true)
    (λ _, ret false).

(** The listing of [_dump], after its [if not self._loaded] block: it only
    prints, and prints the error when the iteration raises. *)
Definition _dump_listing : M unit :=
  try_except (_ ← dict_items; ret tt) (λ _, ret tt).

(** [_lazyOpen], of both classes; what it returns ([True] or nothing) is
    never used.  In the durable class the call of [self._dump] comes
    right after [self._loaded = True], so that [_dump] is at its
    listing. *)
Definition _lazyOpen : M unit :=
  s ← get;
  match cls s with
  | PropertyManager =>
      modify (set_dict (Some (PyDict ∅)));;
      modify (set_loaded true)
  | ShelvePropertyManager storagePath =>
      (* Test again within the critical section *)
      if _loaded s then ret tt
      else
        d ← shelve_open storagePath;
        modify (set_dict (Some d));;
        modify (set_loaded true);;
        s ← get;
        when (diagnostic s)
          (_ ← _check "After shelve.open()"; _dump_listing)
  end.

Definition _dump (msg : string) : M unit :=
  s ← get;
  if negb (_loaded s) then
    _lazyOpen;;
    s ← get;
    if (2 <=? _verbose s)%Z then ret tt else _dump_listing
  else _dump_listing.

Definition _sync : M unit :=
  s ← get;
  match cls s with
  | PropertyManager => ret tt
  | ShelvePropertyManager _ => when (_loaded s) dict_sync
  end.

Definition _close : M unit :=
  s ← get;
  match cls s with
  | PropertyManager =>
      modify (set_dict None);;
      modify (set_loaded false)
  | ShelvePropertyManager _ =>
      when (_loaded s)
        (dict_close;;
         modify (set_dict None);;
         modify (set_loaded false))
  end.

Definition __del__ : M unit :=
  s ← get;
  when (diagnostic s) (_ ← _check ""; ret tt);;
  _close.

(** [if not self._loaded: self._lazyOpen()] *)
Definition ensure_loaded : M unit :=
  s ← get;
  when (negb (_loaded s)) _lazyOpen.

(** [if __debug__ and self._verbose >= 2: self._check(msg)] *)
Definition check_if_diagnostic (msg : string) : M unit :=
  s ← get;
  when (diagnostic s) (_ ← _check msg; ret tt).

Definition getProperties (normurl : string) : M (list string) :=
  ensure_loaded;;
  b ← dict_contains normurl;
  if b then
    o ← dict_getitem normurl;
    s ← get;
    ret ((map_to_list (obj_content o s)).*1)
  else ret [].

Definition getProperty (normurl propname : string) : M (option Value) :=
  ensure_loaded;;
  b ← dict_contains normurl;
  if negb b then ret None
  else
    resourceprops ← try_except (dict_getitem normurl) (λ e, raise e);
    s ← get;
    ret (obj_content resourceprops s !! propname).

Definition writeProperty (normurl propname : string)
    (propertyvalue : option Value) (dryRun : bool) : M unit :=
  assert (truthy normurl && String.prefix "/" normurl);;
  assert (truthy propname);;
  match propertyvalue with
  | None => raise AssertionError
  | Some v =>
      if dryRun then ret tt
      else
        ensure_loaded;;
        b ← dict_contains normurl;
        locatordict ← (if b then dict_getitem normurl else ret (Local ∅));
        locatordict ← obj_setitem locatordict propname v;
        (* This re-assignment is important, so Shelve realizes the change *)
        dict_setitem normurl locatordict;;
        _sync;;
        check_if_diagnostic ""
  end.

Definition removeProperty (normurl propname : string) (dryRun : bool)
  : M unit :=
  if dryRun then ret tt
  else
    ensure_loaded;;
    b ← dict_contains normurl;
    when b
      (locatordict ← dict_getitem normurl;
       s ← get;
       when (isSome (obj_content locatordict s !! propname))
         (locatordict ← obj_delitem locatordict propname;
          dict_setitem normurl locatordict;;
          _sync));;
    check_if_diagnostic "".

Definition removeProperties (normurl : string) : M unit :=
  ensure_loaded;;
  b ← dict_contains normurl;
  when b (dict_delitem normurl;; _sync).

Definition copyProperties (srcurl desturl : string) : M unit :=
  check_if_diagnostic "";;
  ensure_loaded;;
  b ← dict_contains srcurl;
  when b
    (o ← dict_getitem srcurl;
     c ← obj_copy o;
     dict_setitem desturl c;;
     _sync);;
  check_if_diagnostic "after copy".

(** ** What the store holds, and its reachable states *)

(** The mapping behind [self._dict], references resolved: [None] when the
    backend is detached. *)
Definition mapping (s : state) : option (gmap string PropertySet) :=
  match _dict s with
  | None => None
  | Some (PyDict top) => Some ((λ l, obj_content (Ref l) s) <$> top)
  | Some (Shelf _ db) => Some db
  end.

(** The snapshot a caller can take: the mapping the public methods work on,
    which is the one present after their [if not self._loaded:
    self._lazyOpen()]. *)
Definition snapshot (s : state) : option (gmap string PropertySet) :=
  mapping (ensure_loaded s).1.

(** The property set of one resource in the snapshot. *)
Definition properties_of (R : string) (s : state) : option PropertySet :=
  snapshot s ≫= (.!! R).

(** The loaded flag is set exactly when a backend is attached. *)
Definition loaded_iff_attached (s : state) : Prop :=
  _loaded s = true ↔ is_Some (_dict s).

(** Each class attaches its own kind of backend; the shelf is the one
    opened at [_storagePath]. *)
Definition class_backend (c : klass) (b : backend) : Prop :=
  match c, b with
  | PropertyManager, PyDict _ => True
  | ShelvePropertyManager storagePath, Shelf path _ => path = storagePath
  | _, _ => False
  end.

(** The references of a Python dict point to allocated objects, and no
    object is stored under two resources. *)
Definition refs_ok (h : gmap loc PropertySet) (top : gmap string loc)
  : Prop :=
  map_Forall
    (λ k l, is_Some (h !! l)
            ∧ map_Forall (λ k' l', l = l' → k = k') top)
    top.

(** An invariant of the states that the methods produce from a new
    instance (see [reachable] below). *)
Definition wf (s : state) : Prop :=
  loaded_iff_attached s
  ∧ match _dict s with
    | None => True
    | Some b =>
        class_backend (cls s) b
        ∧ match b with
          | PyDict top => refs_ok (heap s) top
          | Shelf _ _ => True
          end
    end.

#[global] Instance loaded_iff_attached_dec s :
  Decision (loaded_iff_attached s).
Proof. unfold loaded_iff_attached. apply _. Defined.

#[global] Instance class_backend_dec c b : Decision (class_backend c b).
Proof. destruct c, b; simpl; apply _. Defined.

#[global] Instance refs_ok_dec h top : Decision (refs_ok h top).
Proof. unfold refs_ok. apply _. Defined.

#[global] Instance wf_dec s : Decision (wf s).
Proof.
  unfold wf, loaded_iff_attached.
  destruct (_dict s) as [[top|path db]|]; apply _.
Defined.

(** The preconditions of [writeProperty]: the resource identifier is not
    empty and begins with the root separator, the name is not empty, the
    value is not [None]. *)
Definition precondition (normurl propname : string)
    (propertyvalue : option Value) : bool :=
  negb (String.eqb normurl "") && String.prefix "/" normurl
  && negb (String.eqb propname "") && isSome propertyvalue.

(** A call of a method from outside, and the state it leaves, whether it
    returns or raises. *)
Inductive call : Type :=
  | call_lazyOpen
  | call_close
  | call_getProperties (normurl : string)
  | call_getProperty (normurl propname : string)
  | call_writeProperty (normurl propname : string)
      (propertyvalue : option Value) (dryRun : bool)
  | call_removeProperty (normurl propname : string) (dryRun : bool)
  | call_removeProperties (normurl : string)
  | call_copyProperties (srcurl desturl : string).

Definition state_after (c : call) (s : state) : state :=
  match c with
  | call_lazyOpen => (_lazyOpen s).1
  | call_close => (_close s).1
  | call_getProperties normurl => (getProperties normurl s).1
  | call_getProperty normurl propname => (getProperty normurl propname s).1
  | call_writeProperty normurl propname propertyvalue dryRun =>
      (writeProperty normurl propname propertyvalue dryRun s).1
  | call_removeProperty normurl propname dryRun =>
      (removeProperty normurl propname dryRun s).1
  | call_removeProperties normurl => (removeProperties normurl s).1
  | call_copyProperties srcurl desturl =>
      (copyProperties srcurl desturl s).1
  end.

(** The states of an instance: a new one, then any sequence of calls. *)
Inductive reachable : state → Prop :=
  | reachable_init c h d : reachable (__init__ c h d)
  | reachable_call c s : reachable s → reachable (state_after c s).



(** ** Notions for the proofs *)

(** The content of the object at a location. *)
Definition resolve (h : gmap loc PropertySet) (l : loc) : PropertySet :=
  default ∅ (h !! l).

(** [preserves m]: running [m] keeps "loaded exactly when attached",
    whether [m] returns or raises. *)
Definition preserves {A} (m : M A) : Prop :=
  ∀ s, loaded_iff_attached s → loaded_iff_attached (m s).1.

(** [avoids e m]: [m] never ends by raising [e]. *)
Definition avoids {A} (e : exn) (m : M A) : Prop :=
  ∀ s, (m s).2 ≠ inl e.

(** ** The file behind a durable store *)

(** What [shelve.open] reads at [path]: the content of the file, nothing
    when there is no file. *)
Definition file_content (path : string) (s : state)
  : gmap string PropertySet :=
  default ∅ (disk s !! path).



(** A new instance of the class of [s] (for the durable class, on the same
    [_storagePath]), constructed on the heap and the files that [s]
    leaves. *)
Definition reopened (s : state) : state :=
  __init__ (cls s) (heap s) (disk s).

End Store.


(** * The store at work

    Two stores holding strings: an in-memory one and a durable one, each
    after [writeProperty("/a", "p", "v")] on a new instance. *)

Definition memory0 : @state string := __init__ PropertyManager ∅ ∅.

Definition memory1 : @state string :=
  (writeProperty "/a" "p" (Some "v") false memory0).1.

Definition shelf0 : @state string :=
  __init__ (ShelvePropertyManager "/var/wsgidav/props.shelve") ∅ ∅.

Definition shelf1 : @state string :=
  (writeProperty "/a" "p" (Some "v") false shelf0).1.

(** A state that no method produces: loaded, with no backend. *)
Definition broken : @state string :=
  mkState PropertyManager None true 2 ∅ ∅.


(** * Facts about the methods *)

Section Properties.

Context {Value : Type}.

Local Abbreviation PropertySet := (gmap string Value).

Local Abbreviation preserves := (preserves (Value := Value)).
Local Abbreviation avoids := (avoids (Value := Value)).

Implicit Types s : @state Value.
Implicit Types o : @dictobj Value.
Implicit Types h : gmap loc PropertySet.

(** ** Basic facts about the helpers *)

Ltac unfold_monad :=
  unfold when, assert, modify, get, raise, ret, try_except, bind in *.

Lemma _check_eq msg s :
  _check msg s = (s, inr (negb (_loaded s) || isSome (_dict s))).
Proof.
  unfold _check, dict_items; unfold_monad.
  destruct (_loaded s); simpl; [|done].
  by destruct (_dict s) as [[top|path db]|].
Qed.

Lemma _dump_listing_eq s : _dump_listing s = (s, inr tt).
Proof.
  unfold _dump_listing, dict_items; unfold_monad.
  by destruct (_dict s) as [[top|path db]|].
Qed.

Lemma check_if_diagnostic_eq msg s : check_if_diagnostic msg s = (s, inr tt).
Proof.
  unfold check_if_diagnostic; unfold_monad.
  destruct (diagnostic s); [|done]. by rewrite _check_eq.
Qed.

Lemma ensure_loaded_loaded s :
  _loaded s = true → ensure_loaded s = (s, inr tt).
Proof. intros H. unfold ensure_loaded; unfold_monad. by rewrite H. Qed.

Lemma bind_ok {A B} (m : M A) (k : A → M B) s s' a :
  m s = (s', inr a) → bind m k s = k a s'.
Proof. intros H. unfold bind. by rewrite H. Qed.

Lemma bind_raise {A B} (m : M A) (k : A → M B) s s' e :
  m s = (s', inl e) → bind m k s = (s', inl e).
Proof. intros H. unfold bind. by rewrite H. Qed.

(** In-memory class: [_lazyOpen] installs a new empty dict, whatever the
    state. *)
Lemma _lazyOpen_in_memory s :
  cls s = PropertyManager →
  _lazyOpen s = (set_loaded true (set_dict (Some (PyDict ∅)) s), inr tt).
Proof. intros H. unfold _lazyOpen; unfold_monad. by rewrite H. Qed.

(** Durable class: [_lazyOpen] on a loaded store returns at its second
    test of the flag. *)
Lemma _lazyOpen_shelve_loaded s storagePath :
  cls s = ShelvePropertyManager storagePath → _loaded s = true →
  _lazyOpen s = (s, inr tt).
Proof. intros H1 H2. unfold _lazyOpen; unfold_monad. by rewrite H1, H2. Qed.

(** Durable class: [_lazyOpen] on a store that is not loaded attaches the
    shelf of the file. *)
Lemma _lazyOpen_shelve_closed s storagePath :
  cls s = ShelvePropertyManager storagePath → _loaded s = false →
  _lazyOpen s =
    (set_loaded true
       (set_dict (Some (Shelf storagePath
                          (default ∅ (disk s !! storagePath)))) s),
     inr tt).
Proof.
  intros H1 H2. unfold _lazyOpen, shelve_open.
  unfold when, modify, get, ret, bind. rewrite H1, H2. simpl.
  destruct (diagnostic _); [|done].
  by rewrite _check_eq, _dump_listing_eq.
Qed.

Lemma wf_init c h d : wf (__init__ c h d).
Proof. split; [|done]. split; [done|]. by intros [b Hb]. Qed.

(** After [if not self._loaded: self._lazyOpen()] a reachable state is
    loaded and still reachable. *)
Lemma ensure_loaded_wf s :
  wf s →
  ∃ s', ensure_loaded s = (s', inr tt) ∧ wf s' ∧ _loaded s' = true.
Proof.
  intros Hwf. destruct (_loaded s) eqn:El.
  - exists s. by rewrite ensure_loaded_loaded.
  - unfold ensure_loaded. unfold when, get, bind. rewrite El. simpl.
    destruct (cls s) as [|storagePath] eqn:Ec.
    + rewrite _lazyOpen_in_memory by done. eexists. split; [reflexivity|].
      split; [|done]. unfold wf, loaded_iff_attached. simpl. rewrite Ec.
      split; [by split; eauto|]. split; [done|].
      unfold refs_ok. apply map_Forall_empty.
    + erewrite _lazyOpen_shelve_closed by done. eexists. split; [reflexivity|].
      split; [|done]. unfold wf, loaded_iff_attached. simpl. rewrite Ec.
      split; [by split; eauto|]. done.
Qed.

(** ** References of the in-memory dict *)

Lemma refs_ok_alt h (top : gmap string loc) :
  refs_ok h top ↔
  (∀ k l, top !! k = Some l → is_Some (h !! l))
  ∧ (∀ k k' l, top !! k = Some l → top !! k' = Some l → k = k').
Proof.
  unfold refs_ok. split.
  - intros H. split.
    + intros k l Hk. by destruct (H k l Hk).
    + intros k k' l Hk Hk'. destruct (H k l Hk) as [_ Hinj].
      by apply (Hinj k' l Hk').
  - intros [Hdom Hinj] k l Hk. split; [by eapply Hdom|].
    intros k' l' Hk' ->. by eapply Hinj.
Qed.

(** Updating in place the object stored under [R]. *)
Lemma refs_update h (top : gmap string loc) R l x :
  refs_ok h top → top !! R = Some l →
  refs_ok (<[l := x]> h) (<[R := l]> top)
  ∧ resolve (<[l := x]> h) <$> <[R := l]> top
    = <[R := x]> (resolve h <$> top).
Proof.
  rewrite !refs_ok_alt. intros [Hdom Hinj] HR.
  rewrite (insert_id top R l HR). split; [split|].
  - intros k l' Hk. destruct (decide (l = l')) as [->|Hne].
    + rewrite lookup_insert_eq. eauto.
    + rewrite lookup_insert_ne by done. by eapply Hdom.
  - done.
  - apply map_eq. intros k. rewrite lookup_fmap.
    destruct (decide (R = k)) as [->|Hne].
    + rewrite HR, lookup_insert_eq. simpl. unfold resolve.
      by rewrite lookup_insert_eq.
    + rewrite lookup_insert_ne, lookup_fmap by done.
      destruct (top !! k) as [l'|] eqn:Hk; [|done]. simpl. f_equal.
      unfold resolve. rewrite lookup_insert_ne; [done|].
      intros ->. apply Hne. by eapply Hinj.
Qed.

(** Storing a new object under [R]. *)
Lemma refs_alloc h (top : gmap string loc) R l x :
  refs_ok h top → h !! l = None →
  refs_ok (<[l := x]> h) (<[R := l]> top)
  ∧ resolve (<[l := x]> h) <$> <[R := l]> top
    = <[R := x]> (resolve h <$> top).
Proof.
  rewrite !refs_ok_alt. intros [Hdom Hinj] Hl.
  assert (Hfresh : ∀ k l', top !! k = Some l' → l ≠ l').
  { intros k l' Hk ->. destruct (Hdom k l' Hk) as [y Hy]. congruence. }
  split; [split|].
  - intros k l' Hk. destruct (decide (l = l')) as [->|Hne].
    + rewrite lookup_insert_eq. eauto.
    + rewrite lookup_insert_ne by done.
      destruct (decide (R = k)) as [->|HRk].
      * rewrite lookup_insert_eq in Hk. congruence.
      * rewrite lookup_insert_ne in Hk by done. by eapply Hdom.
  - intros k k' l' Hk Hk'.
    destruct (decide (R = k)) as [<-|HRk];
      destruct (decide (R = k')) as [<-|HRk']; [done| | |].
    + rewrite lookup_insert_eq in Hk. rewrite lookup_insert_ne in Hk' by done.
      injection Hk as <-. by destruct (Hfresh k' l Hk').
    + rewrite lookup_insert_eq in Hk'. rewrite lookup_insert_ne in Hk by done.
      injection Hk' as <-. by destruct (Hfresh k l Hk).
    + rewrite lookup_insert_ne in Hk, Hk' by done. by eapply Hinj.
  - apply map_eq. intros k. rewrite lookup_fmap.
    destruct (decide (R = k)) as [->|Hne].
    + rewrite !lookup_insert_eq. simpl. unfold resolve.
      by rewrite lookup_insert_eq.
    + rewrite !lookup_insert_ne, lookup_fmap by done.
      destruct (top !! k) as [l'|] eqn:Hk; [|done]. simpl. f_equal.
      unfold resolve. rewrite lookup_insert_ne; [done|]. by eapply Hfresh.
Qed.

(** Unlinking [R]. *)
Lemma refs_delete h (top : gmap string loc) R :
  refs_ok h top →
  refs_ok h (delete R top)
  ∧ resolve h <$> delete R top = delete R (resolve h <$> top).
Proof.
  rewrite !refs_ok_alt. intros [Hdom Hinj]. split; [split|].
  - intros k l Hk. apply lookup_delete_Some in Hk as [_ Hk]. by eapply Hdom.
  - intros k k' l Hk Hk'. apply lookup_delete_Some in Hk as [_ Hk].
    apply lookup_delete_Some in Hk' as [_ Hk']. by eapply Hinj.
  - by rewrite fmap_delete.
Qed.

Lemma fresh_heap (h : gmap loc PropertySet) : h !! fresh (dom h) = None.
Proof. apply not_elem_of_dom. apply is_fresh. Qed.

(** ** The methods on a loaded store *)

Lemma truthy_eqb x : negb (String.eqb x "") = truthy x.
Proof. by destruct x. Qed.

Lemma precondition_true normurl propname (propertyvalue : option Value) :
  precondition normurl propname propertyvalue = true ↔
  truthy normurl && String.prefix "/" normurl = true
  ∧ truthy propname = true ∧ is_Some propertyvalue.
Proof.
  unfold precondition. rewrite !truthy_eqb, !andb_true_iff.
  destruct propertyvalue as [v|]; simpl.
  - intuition eauto.
  - split; [intros [_ ?]; done|]. intros (_ & _ & [v Hv]). done.
Qed.

Lemma wf_loaded_cases s :
  wf s → _loaded s = true →
  (cls s = PropertyManager
   ∧ ∃ top, _dict s = Some (PyDict top) ∧ refs_ok (heap s) top)
  ∨ (∃ path db, cls s = ShelvePropertyManager path
                ∧ _dict s = Some (Shelf path db)).
Proof.
  intros [Hl Hb] Hloaded. apply Hl in Hloaded as [b Hd]. rewrite Hd in Hb.
  destruct Hb as [Hc Hr]. rewrite Hd.
  destruct (cls s) as [|storagePath], b as [top|path db]; simpl in Hc;
    try done.
  - left. eauto.
  - right. subst. eauto.
Qed.

Lemma wf_in_memory top vb h dk :
  refs_ok h top →
  wf (mkState PropertyManager (Some (PyDict top)) true vb h dk).
Proof. intros Hr. split; [by split; eauto|done]. Qed.

Lemma wf_shelve path db vb h dk :
  wf (mkState (ShelvePropertyManager path) (Some (Shelf path db)) true vb
        h dk).
Proof. split; [by split; eauto|done]. Qed.

Ltac unfold_dict :=
  unfold dict_contains, dict_getitem, dict_setitem, dict_delitem, dict_sync,
    obj_setitem, obj_delitem, obj_copy, obj_content, _sync in *.

(** Case analysis on a loaded reachable state, down to its fields. *)
Ltac loaded_cases s Hwf Hl :=
  let Hc := fresh "Hc" in
  let Hd := fresh "Hd" in
  destruct (wf_loaded_cases s Hwf Hl)
    as [(Hc & ?top & Hd & ?Hr)|(?path & ?db & Hc & Hd)];
  destruct s as [?c ?d ?l0 ?vb ?h ?dk]; simpl in *; subst.

Lemma writeProperty_loaded normurl propname v s :
  wf s → _loaded s = true →
  precondition normurl propname (Some v) = true →
  ∃ s' m,
    writeProperty normurl propname (Some v) false s = (s', inr tt)
    ∧ wf s' ∧ _loaded s' = true
    ∧ mapping s = Some m
    ∧ mapping s'
      = Some (<[normurl := <[propname := v]> (default ∅ (m !! normurl))]> m).
Proof.
  intros Hwf Hl Hpre. apply precondition_true in Hpre as (H1 & H2 & _).
  unfold writeProperty. rewrite H1, H2. clear H1 H2.
  loaded_cases s Hwf Hl; unfold ensure_loaded; unfold_dict; unfold_monad;
    simpl.
  - destruct (top !! normurl) as [l|] eqn:HR; simpl; rewrite ?HR; simpl;
      rewrite check_if_diagnostic_eq; eexists _, _;
      (split; [reflexivity|]).
    + destruct (refs_update h top normurl l
                  (<[propname := v]> (default ∅ (h !! l))) Hr HR)
        as [Hr' Hm].
      split; [by apply wf_in_memory|]. split; [done|].
      split; [reflexivity|]. unfold mapping; simpl.
      rewrite lookup_fmap, HR. simpl. f_equal. apply Hm.
    + destruct (refs_alloc h top normurl (fresh (dom h))
                  (<[propname := v]> ∅) Hr (fresh_heap h)) as [Hr' Hm].
      split; [by apply wf_in_memory|]. split; [done|].
      split; [reflexivity|]. unfold mapping; simpl.
      rewrite lookup_fmap, HR. simpl. f_equal. apply Hm.
  - destruct (db !! normurl) as [ps|] eqn:HR; simpl; rewrite ?HR; simpl;
      rewrite check_if_diagnostic_eq; eexists _, _;
      (split; [reflexivity|]); (split; [by apply wf_shelve|]);
      (split; [done|]); (split; [reflexivity|]);
      unfold mapping; simpl; by rewrite HR.
Qed.

Lemma removeProperty_loaded normurl propname s :
  wf s → _loaded s = true →
  ∃ s' m,
    removeProperty normurl propname false s = (s', inr tt)
    ∧ wf s' ∧ _loaded s' = true
    ∧ mapping s = Some m
    ∧ mapping s'
      = Some (match m !! normurl with
              | Some ps => <[normurl := delete propname ps]> m
              | None => m
              end)
    ∧ (m !! normurl ≫= (.!! propname) = None → s' = s).
Proof.
  intros Hwf Hl. unfold removeProperty.
  loaded_cases s Hwf Hl; unfold ensure_loaded; unfold_dict; unfold_monad;
    simpl.
  - destruct (top !! normurl) as [l|] eqn:HR; simpl; rewrite ?HR; simpl.
    + destruct (default ∅ (h !! l) !! propname) as [x|] eqn:Hp; simpl;
        rewrite ?Hp; simpl; rewrite check_if_diagnostic_eq; eexists _, _;
        (split; [reflexivity|]).
      * destruct (refs_update h top normurl l
                    (delete propname (default ∅ (h !! l))) Hr HR)
          as [Hr' Hm].
        split; [by apply wf_in_memory|]. split; [done|].
        split; [reflexivity|]. unfold mapping; simpl.
        rewrite lookup_fmap, HR. simpl. split; [f_equal; apply Hm|].
        unfold resolve. by rewrite Hp.
      * split; [done|]. split; [done|]. split; [reflexivity|].
        unfold mapping; simpl. rewrite lookup_fmap, HR. simpl.
        split; [|done]. f_equal. unfold resolve.
        rewrite delete_id by done. rewrite insert_id; [done|].
        by rewrite lookup_fmap, HR.
    + rewrite check_if_diagnostic_eq; eexists _, _.
      split; [reflexivity|]. split; [done|]. split; [done|].
      split; [reflexivity|]. unfold mapping; simpl.
      by rewrite lookup_fmap, HR.
  - destruct (db !! normurl) as [ps|] eqn:HR; simpl; rewrite ?HR; simpl.
    + destruct (ps !! propname) as [x|] eqn:Hp; simpl; rewrite ?Hp; simpl;
        rewrite check_if_diagnostic_eq; eexists _, _;
        (split; [reflexivity|]).
      * split; [by apply wf_shelve|]. split; [done|].
        split; [reflexivity|]. unfold mapping; simpl. rewrite HR. simpl.
        by rewrite Hp.
      * split; [done|]. split; [done|]. split; [reflexivity|].
        unfold mapping; simpl. rewrite HR. split; [|done]. f_equal.
        rewrite delete_id by done. by rewrite insert_id.
    + rewrite check_if_diagnostic_eq; eexists _, _.
      split; [reflexivity|]. split; [done|]. split; [done|].
      split; [reflexivity|]. unfold mapping; simpl. by rewrite HR.
Qed.

Lemma copyProperties_loaded srcurl desturl s :
  wf s → _loaded s = true →
  ∃ s' m,
    copyProperties srcurl desturl s = (s', inr tt)
    ∧ wf s' ∧ _loaded s' = true
    ∧ mapping s = Some m
    ∧ mapping s'
      = Some (match m !! srcurl with
              | Some ps => <[desturl := ps]> m
              | None => m
              end)
    ∧ (m !! srcurl = None → s' = s).
Proof.
  intros Hwf Hl. unfold copyProperties, bind at 1.
  rewrite check_if_diagnostic_eq.
  loaded_cases s Hwf Hl; unfold ensure_loaded; unfold_dict; unfold_monad;
    simpl.
  - destruct (top !! srcurl) as [l|] eqn:HS; simpl; rewrite ?HS; simpl;
      rewrite check_if_diagnostic_eq; eexists _, _;
      (split; [reflexivity|]).
    + destruct (refs_alloc h top desturl (fresh (dom h))
                  (default ∅ (h !! l)) Hr (fresh_heap h)) as [Hr' Hm].
      split; [by apply wf_in_memory|]. split; [done|].
      split; [reflexivity|]. unfold mapping; simpl.
      rewrite lookup_fmap, HS. simpl. split; [f_equal; apply Hm|done].
    + split; [done|]. split; [done|]. split; [reflexivity|].
      unfold mapping; simpl. by rewrite lookup_fmap, HS.
  - destruct (db !! srcurl) as [ps|] eqn:HS; simpl; rewrite ?HS; simpl;
      rewrite check_if_diagnostic_eq; eexists _, _;
      (split; [reflexivity|]).
    + split; [by apply wf_shelve|]. split; [done|].
      split; [reflexivity|]. unfold mapping; simpl. by rewrite HS.
    + split; [done|]. split; [done|]. split; [reflexivity|].
      unfold mapping; simpl. by rewrite HS.
Qed.

Lemma removeProperties_loaded normurl s :
  wf s → _loaded s = true →
  ∃ s' m,
    removeProperties normurl s = (s', inr tt)
    ∧ wf s' ∧ _loaded s' = true
    ∧ mapping s = Some m
    ∧ mapping s' = Some (delete normurl m).
Proof.
  intros Hwf Hl. unfold removeProperties.
  loaded_cases s Hwf Hl; unfold ensure_loaded; unfold_dict; unfold_monad;
    simpl.
  - destruct (top !! normurl) as [l|] eqn:HR; simpl; rewrite ?HR; simpl;
      eexists _, _; (split; [reflexivity|]).
    + destruct (refs_delete h top normurl Hr) as [Hr' Hm].
      split; [by apply wf_in_memory|]. split; [done|].
      split; [reflexivity|]. unfold mapping; simpl. f_equal. apply Hm.
    + split; [done|]. split; [done|]. split; [reflexivity|].
      unfold mapping; simpl. f_equal. rewrite delete_id; [done|].
      by rewrite lookup_fmap, HR.
  - destruct (db !! normurl) as [ps|] eqn:HR; simpl; rewrite ?HR; simpl;
      eexists _, _; (split; [reflexivity|]).
    + split; [by apply wf_shelve|]. done.
    + split; [done|]. split; [done|]. split; [reflexivity|].
      unfold mapping; simpl. f_equal. by rewrite delete_id.
Qed.

Lemma getProperty_loaded normurl propname s :
  wf s → _loaded s = true →
  ∃ m, mapping s = Some m
       ∧ getProperty normurl propname s
         = (s, inr (m !! normurl ≫= (.!! propname))).
Proof.
  intros Hwf Hl. unfold getProperty.
  loaded_cases s Hwf Hl; unfold ensure_loaded; unfold_dict; unfold_monad;
    simpl; eexists; (split; [reflexivity|]).
  - rewrite lookup_fmap.
    by destruct (top !! normurl) as [l|] eqn:HR; simpl; rewrite ?HR.
  - by destruct (db !! normurl) as [ps|] eqn:HR; simpl; rewrite ?HR.
Qed.

Lemma getProperties_loaded normurl s :
  wf s → _loaded s = true →
  ∃ m, mapping s = Some m
       ∧ getProperties normurl s
         = (s, inr (map_to_list (default ∅ (m !! normurl))).*1).
Proof.
  intros Hwf Hl. unfold getProperties.
  loaded_cases s Hwf Hl; unfold ensure_loaded; unfold_dict; unfold_monad;
    simpl; eexists; (split; [reflexivity|]).
  - rewrite lookup_fmap.
    destruct (top !! normurl) as [l|] eqn:HR; simpl; rewrite ?HR; simpl;
      [done|]. by rewrite map_to_list_empty.
  - destruct (db !! normurl) as [ps|] eqn:HR; simpl; rewrite ?HR; simpl;
      [done|]. by rewrite map_to_list_empty.
Qed.

(** ** The methods on any reachable state

    Every public method starts with [if not self._loaded:
    self._lazyOpen()]; from there on it runs on a loaded store. *)

Lemma snapshot_loaded s : _loaded s = true → snapshot s = mapping s.
Proof. intros Hl. unfold snapshot. by rewrite ensure_loaded_loaded. Qed.

Lemma ensure_loaded_first {A} (k : unit → M A) s s0 :
  ensure_loaded s = (s0, inr tt) → _loaded s0 = true →
  bind ensure_loaded k s = bind ensure_loaded k s0.
Proof.
  intros He Hl. rewrite (bind_ok _ _ _ _ _ He).
  by rewrite (bind_ok _ _ _ _ _ (ensure_loaded_loaded s0 Hl)).
Qed.

Lemma open_first s :
  wf s →
  ∃ s0, ensure_loaded s = (s0, inr tt) ∧ wf s0 ∧ _loaded s0 = true
        ∧ snapshot s = mapping s0
        ∧ (_loaded s = true → s0 = s)
        ∧ (∀ R p v, precondition R p (Some v) = true →
             writeProperty R p (Some v) false s
             = writeProperty R p (Some v) false s0)
        ∧ (∀ R p, removeProperty R p false s = removeProperty R p false s0)
        ∧ (∀ R, removeProperties R s = removeProperties R s0)
        ∧ (∀ S D, copyProperties S D s = copyProperties S D s0)
        ∧ (∀ R p, getProperty R p s = getProperty R p s0)
        ∧ (∀ R, getProperties R s = getProperties R s0).
Proof.
  intros Hwf. destruct (ensure_loaded_wf s Hwf) as (s0 & He & Hwf0 & Hl0).
  exists s0. split; [done|]. split; [done|]. split; [done|].
  split; [unfold snapshot; by rewrite He|].
  split.
  { intros Hl. rewrite ensure_loaded_loaded in He by done. congruence. }
  split.
  { intros R p v Hpre. apply precondition_true in Hpre as (H1 & H2 & _).
    unfold writeProperty. rewrite H1, H2. unfold assert, bind at 1 2.
    simpl. unfold bind at 1 3. simpl. by apply ensure_loaded_first. }
  split; [intros R p; by apply ensure_loaded_first|].
  split; [intros R; by apply ensure_loaded_first|].
  split.
  { intros S D. unfold copyProperties.
    rewrite (bind_ok _ _ s _ _ (check_if_diagnostic_eq "" s)).
    rewrite (bind_ok _ _ s0 _ _ (check_if_diagnostic_eq "" s0)).
    by apply ensure_loaded_first. }
  split; [intros R p; by apply ensure_loaded_first|].
  intros R; by apply ensure_loaded_first.
Qed.

Lemma writeProperty_spec normurl propname v s :
  wf s → precondition normurl propname (Some v) = true →
  ∃ s' m,
    writeProperty normurl propname (Some v) false s = (s', inr tt)
    ∧ wf s' ∧ _loaded s' = true
    ∧ snapshot s = Some m
    ∧ snapshot s'
      = Some (<[normurl := <[propname := v]> (default ∅ (m !! normurl))]> m).
Proof.
  intros Hwf Hpre.
  destruct (open_first s Hwf) as (s0 & _ & Hwf0 & Hl0 & Hs & _ & Hw & _).
  destruct (writeProperty_loaded normurl propname v s0 Hwf0 Hl0 Hpre)
    as (s' & m & Hrun & Hwf' & Hl' & Hm & Hm').
  exists s', m. rewrite Hw, Hs, snapshot_loaded by done. done.
Qed.

Lemma removeProperty_spec normurl propname s :
  wf s →
  ∃ s' m,
    removeProperty normurl propname false s = (s', inr tt)
    ∧ wf s' ∧ _loaded s' = true
    ∧ snapshot s = Some m
    ∧ snapshot s'
      = Some (match m !! normurl with
              | Some ps => <[normurl := delete propname ps]> m
              | None => m
              end)
    ∧ (m !! normurl ≫= (.!! propname) = None → s' = (ensure_loaded s).1).
Proof.
  intros Hwf.
  destruct (open_first s Hwf)
    as (s0 & He & Hwf0 & Hl0 & Hs & _ & _ & Hr & _).
  destruct (removeProperty_loaded normurl propname s0 Hwf0 Hl0)
    as (s' & m & Hrun & Hwf' & Hl' & Hm & Hm' & Hno).
  exists s', m. rewrite Hr, Hs, snapshot_loaded, He by done. done.
Qed.

Lemma copyProperties_spec srcurl desturl s :
  wf s →
  ∃ s' m,
    copyProperties srcurl desturl s = (s', inr tt)
    ∧ wf s' ∧ _loaded s' = true
    ∧ snapshot s = Some m
    ∧ snapshot s'
      = Some (match m !! srcurl with
              | Some ps => <[desturl := ps]> m
              | None => m
              end)
    ∧ (m !! srcurl = None → s' = (ensure_loaded s).1).
Proof.
  intros Hwf.
  destruct (open_first s Hwf)
    as (s0 & He & Hwf0 & Hl0 & Hs & _ & _ & _ & _ & Hc & _).
  destruct (copyProperties_loaded srcurl desturl s0 Hwf0 Hl0)
    as (s' & m & Hrun & Hwf' & Hl' & Hm & Hm' & Hno).
  exists s', m. rewrite Hc, Hs, snapshot_loaded, He by done. done.
Qed.

Lemma removeProperties_spec normurl s :
  wf s →
  ∃ s' m,
    removeProperties normurl s = (s', inr tt)
    ∧ wf s' ∧ _loaded s' = true
    ∧ snapshot s = Some m
    ∧ snapshot s' = Some (delete normurl m).
Proof.
  intros Hwf.
  destruct (open_first s Hwf)
    as (s0 & He & Hwf0 & Hl0 & Hs & _ & _ & _ & Hr & _).
  destruct (removeProperties_loaded normurl s0 Hwf0 Hl0)
    as (s' & m & Hrun & Hwf' & Hl' & Hm & Hm').
  exists s', m. rewrite Hr, Hs, snapshot_loaded by done. done.
Qed.

Lemma getProperty_spec normurl propname s :
  wf s →
  ∃ m, snapshot s = Some m
       ∧ getProperty normurl propname s
         = ((ensure_loaded s).1, inr (m !! normurl ≫= (.!! propname))).
Proof.
  intros Hwf.
  destruct (open_first s Hwf)
    as (s0 & He & Hwf0 & Hl0 & Hs & _ & _ & _ & _ & _ & Hg & _).
  destruct (getProperty_loaded normurl propname s0 Hwf0 Hl0)
    as (m & Hm & Hrun).
  exists m. by rewrite Hg, Hs, He.
Qed.

Lemma getProperties_spec normurl s :
  wf s →
  ∃ m, snapshot s = Some m
       ∧ getProperties normurl s
         = ((ensure_loaded s).1,
            inr (map_to_list (default ∅ (m !! normurl))).*1).
Proof.
  intros Hwf.
  destruct (open_first s Hwf)
    as (s0 & He & Hwf0 & Hl0 & Hs & _ & _ & _ & _ & _ & _ & Hg).
  destruct (getProperties_loaded normurl s0 Hwf0 Hl0) as (m & Hm & Hrun).
  exists m. by rewrite Hg, Hs, He.
Qed.

(** ** The loaded flag and the attached backend

    [preserves m]: running [m] keeps "loaded exactly when attached",
    whether [m] returns or raises. *)

Lemma preserves_ret {A} (a : A) : preserves (ret a).
Proof. by intros s H. Qed.

Lemma preserves_raise {A} e : preserves (raise (A := A) e).
Proof. by intros s H. Qed.

Lemma preserves_get : preserves get.
Proof. by intros s H. Qed.

Lemma preserves_bind {A B} (m : M A) (k : A → M B) :
  preserves m → (∀ a, preserves (k a)) → preserves (bind m k).
Proof.
  intros Hm Hk s H. unfold bind. specialize (Hm s H).
  destruct (m s) as [s' [e|a]]; [done|]. by apply Hk.
Qed.

Lemma preserves_try_except {A} (body : M A) handler :
  preserves body → (∀ e, preserves (handler e)) →
  preserves (try_except body handler).
Proof.
  intros Hm Hk s H. unfold try_except. specialize (Hm s H).
  destruct (body s) as [s' [e|a]]; [|done]. by apply Hk.
Qed.

Lemma preserves_when c m : preserves m → preserves (when c m).
Proof. intros Hm. destruct c; [done|apply preserves_ret]. Qed.

Lemma preserves_assert c : preserves (assert c).
Proof. destruct c; [apply preserves_ret|apply preserves_raise]. Qed.

(** A step that leaves the flag alone and keeps an attached backend
    attached, a detached one detached. *)
Lemma preserves_same_shape {A} (m : M A) :
  (∀ s, _loaded (m s).1 = _loaded s
        ∧ (is_Some (_dict (m s).1) ↔ is_Some (_dict s))) →
  preserves m.
Proof.
  intros Hm s H. destruct (Hm s) as [Hl Hd].
  unfold loaded_iff_attached in *. by rewrite Hl, Hd.
Qed.

Ltac same_shape :=
  apply preserves_same_shape; intros ?;
  unfold dict_contains, dict_getitem, dict_setitem, dict_delitem,
    dict_items, dict_sync, dict_close, obj_setitem, obj_delitem,
    obj_copy;
  repeat match goal with
         | |- context [match ?x with _ => _ end] => destruct x eqn:?
         end;
  simpl;
  repeat match goal with
         | H : _dict _ = _ |- _ => rewrite H
         end;
  (split; [done|]); (done || (split; intros _; eauto)).

Lemma preserves_dict_contains k : preserves (dict_contains k).
Proof. same_shape. Qed.

Lemma preserves_dict_getitem k : preserves (dict_getitem k).
Proof. same_shape. Qed.

Lemma preserves_dict_setitem k o : preserves (dict_setitem k o).
Proof. same_shape. Qed.

Lemma preserves_dict_delitem k : preserves (dict_delitem k).
Proof. same_shape. Qed.

Lemma preserves_dict_items : preserves dict_items.
Proof. same_shape. Qed.

Lemma preserves_dict_sync : preserves dict_sync.
Proof. same_shape. Qed.

Lemma preserves_obj_setitem o p v : preserves (obj_setitem o p v).
Proof. same_shape. Qed.

Lemma preserves_obj_delitem o p : preserves (obj_delitem o p).
Proof. same_shape. Qed.

Lemma preserves_obj_copy o : preserves (obj_copy o).
Proof. same_shape. Qed.

Ltac preserves_step :=
  lazymatch goal with
  | |- preserves (bind _ _) => apply preserves_bind; [|intros ?]
  | |- preserves (try_except _ _) =>
      apply preserves_try_except; [|intros ?]
  | |- preserves (when _ _) => apply preserves_when
  | |- preserves (if ?b then _ else _) => destruct b
  | |- preserves (match ?x with _ => _ end) => destruct x
  | |- _ =>
      first [ apply preserves_ret | apply preserves_raise
            | apply preserves_get | apply preserves_assert
            | apply preserves_dict_contains | apply preserves_dict_getitem
            | apply preserves_dict_setitem | apply preserves_dict_delitem
            | apply preserves_dict_items | apply preserves_dict_sync
            | apply preserves_obj_setitem | apply preserves_obj_delitem
            | apply preserves_obj_copy | solve [auto] ]
  end.

Lemma preserves__check msg : preserves (_check msg).
Proof. unfold _check. repeat preserves_step. Qed.

Lemma preserves_check_if_diagnostic msg : preserves (check_if_diagnostic msg).
Proof.
  unfold check_if_diagnostic. pose proof preserves__check.
  repeat preserves_step.
Qed.

Lemma preserves__sync : preserves _sync.
Proof. unfold _sync. repeat preserves_step. Qed.

Lemma preserves__lazyOpen : preserves _lazyOpen.
Proof.
  intros s H. destruct (cls s) as [|storagePath] eqn:Ec.
  - rewrite _lazyOpen_in_memory by done. split; eauto.
  - destruct (_loaded s) eqn:El.
    + by erewrite _lazyOpen_shelve_loaded.
    + erewrite _lazyOpen_shelve_closed by done. split; eauto.
Qed.

Lemma preserves_ensure_loaded : preserves ensure_loaded.
Proof.
  unfold ensure_loaded. pose proof preserves__lazyOpen.
  repeat preserves_step.
Qed.

Lemma detached_not_loaded s :
  loaded_iff_attached (set_loaded false (set_dict None s)).
Proof. split; simpl; [done|]. by intros [b Hb]. Qed.

Lemma preserves__close : preserves _close.
Proof.
  intros s H. unfold _close, dict_close; unfold_monad.
  destruct (cls s) as [|storagePath]; simpl.
  - apply detached_not_loaded.
  - destruct (_loaded s) eqn:El; simpl; [|done].
    destruct (_dict s) as [[top|path db]|] eqn:Ed; simpl; try done.
    apply detached_not_loaded.
Qed.

Lemma preserves_writeProperty normurl propname propertyvalue dryRun :
  preserves (writeProperty normurl propname propertyvalue dryRun).
Proof.
  unfold writeProperty.
  pose proof preserves_ensure_loaded. pose proof preserves__sync.
  pose proof preserves_check_if_diagnostic. repeat preserves_step.
Qed.

Lemma preserves_removeProperty normurl propname dryRun :
  preserves (removeProperty normurl propname dryRun).
Proof.
  unfold removeProperty.
  pose proof preserves_ensure_loaded. pose proof preserves__sync.
  pose proof preserves_check_if_diagnostic. repeat preserves_step.
Qed.

Lemma preserves_removeProperties normurl :
  preserves (removeProperties normurl).
Proof.
  unfold removeProperties.
  pose proof preserves_ensure_loaded. pose proof preserves__sync.
  repeat preserves_step.
Qed.

Lemma preserves_copyProperties srcurl desturl :
  preserves (copyProperties srcurl desturl).
Proof.
  unfold copyProperties.
  pose proof preserves_ensure_loaded. pose proof preserves__sync.
  pose proof preserves_check_if_diagnostic. repeat preserves_step.
Qed.

Lemma preserves_getProperty normurl propname :
  preserves (getProperty normurl propname).
Proof.
  unfold getProperty. pose proof preserves_ensure_loaded.
  repeat preserves_step.
Qed.

Lemma preserves_getProperties normurl : preserves (getProperties normurl).
Proof.
  unfold getProperties. pose proof preserves_ensure_loaded.
  repeat preserves_step.
Qed.

(** ** Which exceptions a method can raise

    [avoids e m]: [m] never ends by raising [e]. *)

Lemma avoids_run {A} e (m : M A) s : avoids e m → (m s).2 ≠ inl e.
Proof. intros H. apply H. Qed.

Lemma avoids_ret {A} e (a : A) : avoids e (ret a).
Proof. by intros s. Qed.

Lemma avoids_raise {A} e e' : e' ≠ e → avoids e (raise (A := A) e').
Proof. intros Hne s. simpl. congruence. Qed.

Lemma avoids_bind {A B} e (m : M A) (k : A → M B) :
  avoids e m → (∀ a, avoids e (k a)) → avoids e (bind m k).
Proof.
  intros Hm Hk s. unfold bind. specialize (Hm s).
  destruct (m s) as [s' [e'|a]]; [|apply Hk].
  simpl in *. congruence.
Qed.

Lemma avoids_try_except {A} e (body : M A) handler :
  avoids e body → (∀ e', avoids e (handler e')) →
  avoids e (try_except body handler).
Proof.
  intros Hm Hk s. unfold try_except. specialize (Hm s).
  destruct (body s) as [s' [e'|a]]; [apply Hk|exact Hm].
Qed.

Lemma avoids_when e c m : avoids e m → avoids e (when c m).
Proof. intros Hm. destruct c; [done|apply avoids_ret]. Qed.

(** The operations on dict objects raise [TypeError], [KeyError] or
    [AttributeError] only. *)
Ltac avoids_primitive :=
  intros ?;
  unfold dict_contains, dict_getitem, dict_setitem, dict_delitem,
    dict_items, dict_sync, dict_close, obj_setitem, obj_delitem,
    obj_copy, modify, get;
  repeat match goal with
         | |- context [match ?x with _ => _ end] => destruct x
         end;
  simpl; congruence.

Ltac avoids_step :=
  lazymatch goal with
  | |- avoids _ (bind _ _) => apply avoids_bind; [|intros ?]
  | |- avoids _ (try_except _ _) => apply avoids_try_except; [|intros ?]
  | |- avoids _ (when _ _) => apply avoids_when
  | |- avoids _ (ret _) => apply avoids_ret
  | |- avoids _ (raise _) => by apply avoids_raise
  | |- avoids _ (if ?b then _ else _) => destruct b
  | |- avoids _ (match ?x with _ => _ end) => destruct x
  | |- _ => first [ solve [auto] | avoids_primitive ]
  end.

Lemma avoids__check msg : avoids AssertionError (_check msg).
Proof. intros s. by rewrite _check_eq. Qed.

Lemma avoids_check_if_diagnostic msg :
  avoids AssertionError (check_if_diagnostic msg).
Proof. intros s. by rewrite check_if_diagnostic_eq. Qed.

Lemma avoids__lazyOpen : avoids AssertionError _lazyOpen.
Proof.
  unfold _lazyOpen, _dump_listing, shelve_open. pose proof avoids__check.
  repeat avoids_step.
Qed.

Lemma avoids_ensure_loaded : avoids AssertionError ensure_loaded.
Proof.
  unfold ensure_loaded. pose proof avoids__lazyOpen. repeat avoids_step.
Qed.

Lemma avoids__sync : avoids AssertionError _sync.
Proof. unfold _sync. repeat avoids_step. Qed.

(** ** Dry runs and precondition faults of [writeProperty] *)

Lemma writeProperty_fault normurl propname propertyvalue dryRun s :
  precondition normurl propname propertyvalue = false →
  writeProperty normurl propname propertyvalue dryRun s
  = (s, inl AssertionError).
Proof.
  unfold precondition, writeProperty. rewrite !truthy_eqb. intros Hpre.
  unfold assert, raise, ret, bind.
  destruct (truthy normurl && String.prefix "/" normurl); [|done].
  destruct (truthy propname); [|done].
  by destruct propertyvalue.
Qed.

Lemma writeProperty_dryRun normurl propname propertyvalue s :
  writeProperty normurl propname propertyvalue true s
  = (s, if precondition normurl propname propertyvalue
        then inr tt else inl AssertionError).
Proof.
  destruct (precondition normurl propname propertyvalue) eqn:Hpre.
  - apply precondition_true in Hpre as (H1 & H2 & [v ->]).
    unfold writeProperty. by rewrite H1, H2.
  - by apply writeProperty_fault.
Qed.

Lemma removeProperty_dryRun normurl propname s :
  removeProperty normurl propname true s = (s, inr tt).
Proof. done. Qed.

Lemma writeProperty_no_fault normurl propname propertyvalue dryRun s :
  precondition normurl propname propertyvalue = true →
  (writeProperty normurl propname propertyvalue dryRun s).2
  ≠ inl AssertionError.
Proof.
  intros Hpre. apply precondition_true in Hpre as (H1 & H2 & [v ->]).
  unfold writeProperty. rewrite H1, H2. apply avoids_run.
  unfold assert.
  pose proof avoids_ensure_loaded. pose proof avoids__sync.
  pose proof avoids_check_if_diagnostic. repeat avoids_step.
Qed.

(** ** One resource at a time *)

(** [writeProperty] on [R] changes the property set of [R] and of no other
    resource. *)
Lemma writeProperty_frame R R' propname v s :
  wf s → precondition R propname (Some v) = true → R ≠ R' →
  ∃ s',
    writeProperty R propname (Some v) false s = (s', inr tt)
    ∧ properties_of R s'
      = Some (<[propname := v]> (default ∅ (properties_of R s)))
    ∧ properties_of R' s' = properties_of R' s.
Proof.
  intros Hwf Hpre Hne.
  destruct (writeProperty_spec R propname v s Hwf Hpre)
    as (s' & m & Hrun & _ & _ & Hm & Hm').
  exists s'. split; [done|]. unfold properties_of. rewrite Hm, Hm'. simpl.
  by rewrite lookup_insert_eq, lookup_insert_ne.
Qed.

(** [removeProperty] on [R] changes the property set of [R] and of no
    other resource. *)
Lemma removeProperty_frame R R' propname s :
  wf s → R ≠ R' →
  ∃ s',
    removeProperty R propname false s = (s', inr tt)
    ∧ properties_of R s' = delete propname <$> properties_of R s
    ∧ properties_of R' s' = properties_of R' s.
Proof.
  intros Hwf Hne.
  destruct (removeProperty_spec R propname s Hwf)
    as (s' & m & Hrun & _ & _ & Hm & Hm' & _).
  exists s'. split; [done|]. unfold properties_of. rewrite Hm, Hm'. simpl.
  destruct (m !! R) as [ps|] eqn:HR.
  - by rewrite lookup_insert_eq, lookup_insert_ne.
  - by rewrite HR.
Qed.

(** ** Reachable states *)

Lemma wf__lazyOpen s : wf s → wf (_lazyOpen s).1.
Proof.
  intros Hwf. destruct (cls s) as [|storagePath] eqn:Ec.
  - rewrite _lazyOpen_in_memory by done. simpl.
    split; [by split; eauto|]. simpl. rewrite Ec. split; [done|].
    apply map_Forall_empty.
  - destruct (_loaded s) eqn:El.
    + by erewrite _lazyOpen_shelve_loaded.
    + erewrite _lazyOpen_shelve_closed by done. simpl.
      split; [by split; eauto|]. simpl. by rewrite Ec.
Qed.

Lemma wf__close s : wf s → wf (_close s).1.
Proof.
  intros Hwf. split; [apply preserves__close, Hwf|].
  destruct Hwf as [_ Hb]. unfold _close, dict_close; unfold_monad.
  destruct (cls s) as [|storagePath] eqn:Ec; simpl; [done|].
  destruct (_loaded s); simpl; [|by rewrite Ec].
  destruct (_dict s) as [[top|path db]|] eqn:Hd; simpl; [|done|].
  - by rewrite Hd, Ec.
  - by rewrite Hd.
Qed.

(** Every state of an instance satisfies the invariant. *)
Lemma reachable_wf s : reachable s → wf s.
Proof.
  induction 1 as [c h d|c s Hreach Hwf]; [apply wf_init|].
  destruct c as [| |R|R p|R p pv dryRun|R p dryRun|R|S D]; simpl.
  - by apply wf__lazyOpen.
  - by apply wf__close.
  - destruct (getProperties_spec R s Hwf) as (m & _ & ->). simpl.
    by destruct (ensure_loaded_wf s Hwf) as (s0 & -> & Hwf0 & _).
  - destruct (getProperty_spec R p s Hwf) as (m & _ & ->). simpl.
    by destruct (ensure_loaded_wf s Hwf) as (s0 & -> & Hwf0 & _).
  - destruct (precondition R p pv) eqn:Hpre.
    + destruct dryRun.
      * by rewrite writeProperty_dryRun.
      * pose proof Hpre as Hpre'.
        apply precondition_true in Hpre' as (_ & _ & [v ->]).
        by destruct (writeProperty_spec R p v s Hwf Hpre)
          as (s' & m & -> & Hwf' & _).
    + by rewrite writeProperty_fault.
  - destruct dryRun; [done|].
    by destruct (removeProperty_spec R p s Hwf) as (s' & m & -> & Hwf' & _).
  - by destruct (removeProperties_spec R s Hwf) as (s' & m & -> & Hwf' & _).
  - by destruct (copyProperties_spec S D s Hwf) as (s' & m & -> & Hwf' & _).
Qed.


(** * The properties of the store *)

(** C2. On a store whose state satisfies [wf], as every reachable state
    does, for a resource identifier that begins with the root separator,
    a name that is not empty and a value that is not [None]:
    [writeProperty] with [dryRun=False] returns, and on the store it
    leaves [getProperty] returns exactly the value written and
    [getProperties] lists the name. *)
Theorem writeProperty_then_read normurl propname v s :
  wf s → precondition normurl propname (Some v) = true →
  ∃ s' names,
    writeProperty normurl propname (Some v) false s = (s', inr tt)
    ∧ getProperty normurl propname s' = (s', inr (Some v))
    ∧ getProperties normurl s' = (s', inr names)
    ∧ propname ∈ names.
Proof.
  intros Hwf Hpre.
  destruct (writeProperty_spec normurl propname v s Hwf Hpre)
    as (s' & m & Hrun & Hwf' & Hl' & _ & Hm').
  rewrite snapshot_loaded in Hm' by done.
  destruct (getProperty_loaded normurl propname s' Hwf' Hl')
    as (m1 & Hm1 & Hget).
  destruct (getProperties_loaded normurl s' Hwf' Hl') as (m2 & Hm2 & Hlist).
  rewrite Hm' in Hm1, Hm2. injection Hm1 as <-. injection Hm2 as <-.
  rewrite lookup_insert_eq in Hget, Hlist. simpl in Hget, Hlist.
  rewrite lookup_insert_eq in Hget.
  eexists s', _. split; [done|]. split; [done|]. split; [done|].
  apply list_elem_of_fmap. exists (propname, v). split; [done|].
  apply elem_of_map_to_list. apply lookup_insert_eq.
Qed.

(** C3. On a store whose state satisfies [wf], when [S] has a property
    set, [copyProperties] returns, [D] has the same property set as [S]
    had, and no dict object is stored under two resources ([wf] again).
    For [D] other than [S] the two are then independent: [writeProperty]
    and [removeProperty] on [S] change the property set of [S] and leave
    that of [D], and the other way round.  When [S] has no property set
    the method does nothing but its lazy open, also when [D] has one. *)
Theorem copyProperties_clone_is_independent s :
  wf s →
  (∀ S D ps,
     properties_of S s = Some ps →
     ∃ s1,
       copyProperties S D s = (s1, inr tt)
       ∧ wf s1
       ∧ properties_of D s1 = Some ps
       ∧ properties_of S s1 = Some ps
       ∧ (S ≠ D →
          (∀ p v, precondition S p (Some v) = true →
             ∃ s2, writeProperty S p (Some v) false s1 = (s2, inr tt)
                   ∧ properties_of S s2 = Some (<[p := v]> ps)
                   ∧ properties_of D s2 = Some ps)
          ∧ (∀ p,
             ∃ s2, removeProperty S p false s1 = (s2, inr tt)
                   ∧ properties_of S s2 = Some (delete p ps)
                   ∧ properties_of D s2 = Some ps)
          ∧ (∀ p v, precondition D p (Some v) = true →
             ∃ s2, writeProperty D p (Some v) false s1 = (s2, inr tt)
                   ∧ properties_of D s2 = Some (<[p := v]> ps)
                   ∧ properties_of S s2 = Some ps)
          ∧ (∀ p,
             ∃ s2, removeProperty D p false s1 = (s2, inr tt)
                   ∧ properties_of D s2 = Some (delete p ps)
                   ∧ properties_of S s2 = Some ps)))
  ∧ (∀ S D,
       properties_of S s = None →
       copyProperties S D s = ((ensure_loaded s).1, inr tt)
       ∧ snapshot (copyProperties S D s).1 = snapshot s
       ∧ (_loaded s = true → copyProperties S D s = (s, inr tt))).
Proof.
  intros Hwf. split.
  - intros S D ps HS.
    destruct (copyProperties_spec S D s Hwf)
      as (s1 & m & Hrun & Hwf1 & Hl1 & Hm & Hm1 & _).
    unfold properties_of in HS. rewrite Hm in HS. simpl in HS.
    rewrite HS in Hm1.
    assert (HD1 : properties_of D s1 = Some ps).
    { unfold properties_of. rewrite Hm1. simpl. apply lookup_insert_eq. }
    assert (HS1 : properties_of S s1 = Some ps).
    { unfold properties_of. rewrite Hm1. simpl.
      destruct (decide (D = S)) as [->|Hne].
      - apply lookup_insert_eq.
      - by rewrite lookup_insert_ne. }
    exists s1. split; [done|]. split; [done|]. split; [done|].
    split; [done|]. intros Hne. split; [|split; [|split]].
    + intros p v Hpre.
      destruct (writeProperty_frame S D p v s1 Hwf1 Hpre Hne)
        as (s2 & Hw & HS2 & HD2).
      exists s2. by rewrite HS2, HD2, HS1, HD1.
    + intros p.
      destruct (removeProperty_frame S D p s1 Hwf1 Hne)
        as (s2 & Hr & HS2 & HD2).
      exists s2. by rewrite HS2, HD2, HS1, HD1.
    + intros p v Hpre.
      destruct (writeProperty_frame D S p v s1 Hwf1 Hpre (not_eq_sym Hne))
        as (s2 & Hw & HD2 & HS2).
      exists s2. by rewrite HS2, HD2, HS1, HD1.
    + intros p.
      destruct (removeProperty_frame D S p s1 Hwf1 (not_eq_sym Hne))
        as (s2 & Hr & HD2 & HS2).
      exists s2. by rewrite HS2, HD2, HS1, HD1.
  - intros S D HS.
    destruct (copyProperties_spec S D s Hwf)
      as (s1 & m & Hrun & Hwf1 & Hl1 & Hm & Hm1 & Hno).
    unfold properties_of in HS. rewrite Hm in HS. simpl in HS.
    specialize (Hno HS). subst s1. rewrite Hrun. split; [done|]. split.
    + simpl. by rewrite snapshot_loaded.
    + intros Hl. by rewrite ensure_loaded_loaded.
Qed.

(** C4. With [dryRun=True], [writeProperty] and [removeProperty] leave the
    whole state as it was (the mapping, the loaded flag and everything
    else), for every resource identifier, name and value. *)
Theorem dryRun_leaves_state_unchanged normurl propname propertyvalue s :
  (writeProperty normurl propname propertyvalue true s).1 = s
  ∧ (removeProperty normurl propname true s).1 = s.
Proof. split; [by rewrite writeProperty_dryRun|done]. Qed.

(** C5. On a store whose state satisfies [wf], when the resource is absent or has no
    property of that name, [removeProperty] with [dryRun=False] returns
    without an exception and its only effect is the lazy open of the
    method: the snapshot is the same before and after, and a loaded store
    is left exactly as it was. *)
Theorem removeProperty_absent_is_noop normurl propname s :
  wf s → properties_of normurl s ≫= (.!! propname) = None →
  removeProperty normurl propname false s = ((ensure_loaded s).1, inr tt)
  ∧ snapshot (removeProperty normurl propname false s).1 = snapshot s
  ∧ (_loaded s = true →
     removeProperty normurl propname false s = (s, inr tt)).
Proof.
  intros Hwf Habs.
  destruct (removeProperty_spec normurl propname s Hwf)
    as (s' & m & Hrun & Hwf' & Hl' & Hm & Hm' & Hno).
  unfold properties_of in Habs. rewrite Hm in Habs. simpl in Habs.
  specialize (Hno Habs). subst s'. rewrite Hrun. split; [done|]. split.
  - simpl. rewrite snapshot_loaded by done. done.
  - intros Hl. by rewrite ensure_loaded_loaded.
Qed.

(** C6. [writeProperty] raises [AssertionError] exactly when a
    precondition is violated (resource identifier empty or not beginning
    with the root separator, empty name, [None] value), and then at once,
    with the state untouched; when the preconditions hold no
    [AssertionError] is raised, and on a store whose state satisfies [wf]
    the call returns. *)
Theorem writeProperty_precondition_fault
    normurl propname propertyvalue dryRun s :
  (precondition normurl propname propertyvalue = false →
   writeProperty normurl propname propertyvalue dryRun s
   = (s, inl AssertionError))
  ∧ ((writeProperty normurl propname propertyvalue dryRun s).2
     = inl AssertionError
     ↔ precondition normurl propname propertyvalue = false)
  ∧ (precondition normurl propname propertyvalue = true → wf s →
     (writeProperty normurl propname propertyvalue dryRun s).2 = inr tt).
Proof.
  split; [apply writeProperty_fault|]. split.
  - split.
    + intros Hraise.
      destruct (precondition normurl propname propertyvalue) eqn:Hpre;
        [|done].
      by destruct (writeProperty_no_fault normurl propname propertyvalue
                     dryRun s Hpre).
    + intros Hpre. by rewrite writeProperty_fault.
  - intros Hpre Hwf. destruct dryRun.
    + by rewrite writeProperty_dryRun, Hpre.
    + pose proof Hpre as Hpre'.
      apply precondition_true in Hpre' as (_ & _ & [v ->]).
      destruct (writeProperty_spec normurl propname v s Hwf Hpre)
        as (s' & m & Hrun & _). by rewrite Hrun.
Qed.

(** C7. [_check] never raises and never changes the state: it returns
    [False] exactly when the store is loaded and the iteration over
    [self._dict.items()] raises, and [True] when the store is not loaded or
    the iteration goes through. *)
Theorem check_never_propagates msg s :
  ∃ ok,
    _check msg s = (s, inr ok)
    ∧ (ok = false ↔ _loaded s = true ∧ ∃ e, (dict_items s).2 = inl e)
    ∧ (ok = true
       ↔ _loaded s = false ∨ ∃ entries, dict_items s = (s, inr entries)).
Proof.
  eexists. split; [apply _check_eq|]. unfold dict_items.
  destruct (_loaded s), (_dict s) as [[top|path db]|]; simpl.
  - split; [split; [done|by intros [_ [e He]]]|]. split; eauto.
  - split; [split; [done|by intros [_ [e He]]]|]. split; eauto.
  - split; [split; eauto|].
    split; [done|]. by intros [?|[entries He]].
  - split; [split; [done|by intros [? _]]|]. split; eauto.
  - split; [split; [done|by intros [? _]]|]. split; eauto.
  - split; [split; [done|by intros [? _]]|]. split; eauto.
Qed.

(** C8. [_close] of both classes, on a store whose state satisfies [wf]:
    it returns without an exception, leaves the loaded flag false and the
    backend detached, and a second [_close] returns and changes nothing;
    a store that was never opened is left as constructed. *)
Theorem close_idempotent s :
  wf s →
  (∃ s', _close s = (s', inr tt)
         ∧ _loaded s' = false ∧ _dict s' = None
         ∧ _close s' = (s', inr tt))
  ∧ (∀ c h d, _close (__init__ c h d) = (__init__ c h d, inr tt)).
Proof.
  intros [Hl Hb]. split.
  - unfold _close, dict_close; unfold_monad.
    destruct (cls s) as [|storagePath] eqn:Ec; simpl.
    + eexists. split; [reflexivity|]. simpl. by rewrite Ec.
    + destruct (_loaded s) eqn:El; simpl.
      * destruct Hl as [Hl _]. destruct (Hl El) as [b Hd].
        rewrite Hd in Hb. destruct Hb as [Hc _].
        destruct b as [top|path db]; [done|]. rewrite Hd.
        eexists. split; [reflexivity|]. simpl. by rewrite Ec.
      * exists s. rewrite Ec, El. simpl. split; [done|]. split; [done|].
        split; [|done]. destruct (_dict s) as [b|] eqn:Hd; [|done].
        destruct Hl as [_ Hl]. rewrite Hl in El; [done|eauto].
  - by intros [|storagePath] h d.
Qed.

(** C9. "The loaded flag is true exactly when the mapping is not [None]"
    holds of a new instance of either class, with the flag false and the
    mapping [None], and every method keeps it, whether it returns or
    raises; after [_close] has returned the flag is false and the mapping
    is [None]. *)
Theorem loaded_iff_attached_invariant s :
  loaded_iff_attached s →
  (∀ c h d,
     loaded_iff_attached (__init__ c h d)
     ∧ _loaded (__init__ c h d) = false ∧ _dict (__init__ c h d) = None)
  ∧ loaded_iff_attached (_lazyOpen s).1
  ∧ (∀ normurl, loaded_iff_attached (getProperties normurl s).1)
  ∧ (∀ normurl propname,
       loaded_iff_attached (getProperty normurl propname s).1)
  ∧ (∀ normurl propname propertyvalue dryRun,
       loaded_iff_attached
         (writeProperty normurl propname propertyvalue dryRun s).1)
  ∧ (∀ normurl propname dryRun,
       loaded_iff_attached (removeProperty normurl propname dryRun s).1)
  ∧ (∀ normurl, loaded_iff_attached (removeProperties normurl s).1)
  ∧ (∀ srcurl desturl,
       loaded_iff_attached (copyProperties srcurl desturl s).1)
  ∧ loaded_iff_attached (_close s).1
  ∧ (∀ s', _close s = (s', inr tt) →
           _loaded s' = false ∧ _dict s' = None).
Proof.
  intros H. split.
  { intros c h d. split; [|done]. split; [done|]. by intros [b Hb]. }
  split; [by apply preserves__lazyOpen|].
  split; [intros; by apply preserves_getProperties|].
  split; [intros; by apply preserves_getProperty|].
  split; [intros; by apply preserves_writeProperty|].
  split; [intros; by apply preserves_removeProperty|].
  split; [intros; by apply preserves_removeProperties|].
  split; [intros; by apply preserves_copyProperties|].
  split; [by apply preserves__close|].
  intros s'. unfold _close, dict_close; unfold_monad.
  destruct (cls s) as [|storagePath]; simpl.
  - by intros [= <-].
  - destruct (_loaded s) eqn:El; simpl.
    + destruct (_dict s) as [[top|path db]|]; simpl; try done.
      by intros [= <-].
    + intros [= <-]. split; [done|].
      destruct (_dict s) as [b|] eqn:Hd; [|done].
      destruct H as [_ H]. rewrite H in El; [done|eauto].
Qed.

(** C10. [removeProperty] with [dryRun=True] returns at once for every
    resource identifier and name, malformed ones too, with no exception
    and no validation; [writeProperty] with [dryRun=True] still runs its
    three checks and raises [AssertionError] when one fails. *)
Theorem removeProperty_dryRun_skips_validation
    normurl propname propertyvalue s :
  removeProperty normurl propname true s = (s, inr tt)
  ∧ writeProperty normurl propname propertyvalue true s
    = (s, if precondition normurl propname propertyvalue
          then inr tt else inl AssertionError).
Proof. split; [done|apply writeProperty_dryRun]. Qed.

(** * Further properties of the methods *)

(** ** The answers of the two read methods *)

Lemma getProperty_answer normurl propname s :
  wf s →
  (getProperty normurl propname s).2
  = inr (properties_of normurl s ≫= (.!! propname)).
Proof.
  intros Hwf.
  destruct (getProperty_spec normurl propname s Hwf) as (m & Hm & ->).
  unfold properties_of. by rewrite Hm.
Qed.

Lemma getProperties_answer normurl s :
  wf s →
  (getProperties normurl s).2
  = inr (map_to_list (default ∅ (properties_of normurl s))).*1.
Proof.
  intros Hwf. destruct (getProperties_spec normurl s Hwf) as (m & Hm & ->).
  unfold properties_of. by rewrite Hm.
Qed.

(** X1. [removeProperties] returns and leaves nothing of the resource:
    every [getProperty] on it then returns [None] and [getProperties]
    returns the empty list; the property sets of the other resources are
    as before. *)
Theorem removeProperties_removes_resource normurl s :
  wf s →
  ∃ s',
    removeProperties normurl s = (s', inr tt)
    ∧ (∀ propname, (getProperty normurl propname s').2 = inr None)
    ∧ (getProperties normurl s').2 = inr []
    ∧ (∀ R, R ≠ normurl → properties_of R s' = properties_of R s).
Proof.
  intros Hwf.
  destruct (removeProperties_spec normurl s Hwf)
    as (s' & m & Hrun & Hwf' & _ & Hm & Hm').
  assert (Hgone : properties_of normurl s' = None).
  { unfold properties_of. rewrite Hm'. simpl. apply lookup_delete_eq. }
  exists s'. split; [done|]. split; [|split].
  - intros propname. by rewrite getProperty_answer, Hgone.
  - rewrite getProperties_answer, Hgone by done. simpl.
    by rewrite map_to_list_empty.
  - intros R Hne. unfold properties_of. rewrite Hm, Hm'. simpl.
    by rewrite lookup_delete_ne.
Qed.

(** X2. Reading what is not there is no error: on a store whose state
    satisfies [wf], [getProperty] and [getProperties] return for every
    resource and name; for a resource without a property set they return
    [None] and the empty list, and for a name that the property set of the
    resource lacks [getProperty] returns [None]. *)
Theorem reading_missing_returns_nothing normurl propname s :
  wf s →
  (∃ r names,
     (getProperty normurl propname s).2 = inr r
     ∧ (getProperties normurl s).2 = inr names)
  ∧ (properties_of normurl s = None →
     (getProperty normurl propname s).2 = inr None
     ∧ (getProperties normurl s).2 = inr [])
  ∧ (∀ ps, properties_of normurl s = Some ps → ps !! propname = None →
     (getProperty normurl propname s).2 = inr None).
Proof.
  intros Hwf. rewrite getProperty_answer, getProperties_answer by done.
  split; [by eexists _, _|]. split.
  - intros ->. simpl. by rewrite map_to_list_empty.
  - intros ps -> Hp. simpl. by rewrite Hp.
Qed.

(** X3. [getProperties] lists exactly the names for which [getProperty]
    returns a value, each of them once. *)
Theorem getProperties_lists_what_getProperty_finds normurl s :
  wf s →
  ∃ names,
    (getProperties normurl s).2 = inr names
    ∧ NoDup names
    ∧ ∀ propname,
        propname ∈ names
        ↔ ∃ v, (getProperty normurl propname s).2 = inr (Some v).
Proof.
  intros Hwf. eexists. split; [by apply getProperties_answer|].
  split; [apply NoDup_fst_map_to_list|].
  intros propname. rewrite getProperty_answer by done.
  rewrite list_elem_of_fmap. split.
  - intros [[p v] [-> Hin]]. apply elem_of_map_to_list in Hin.
    destruct (properties_of normurl s) as [ps|]; simpl in *;
      [|by rewrite lookup_empty in Hin].
    exists v. by rewrite Hin.
  - intros [v Hv]. destruct (properties_of normurl s) as [ps|];
      simpl in *; [|done].
    exists (propname, v). split; [done|]. apply elem_of_map_to_list.
    congruence.
Qed.

(** X4. [writeProperty] changes the answer of [getProperty] for the
    resource and name it writes, and for no other pair. *)
Theorem writeProperty_changes_one_answer normurl propname v s :
  wf s → precondition normurl propname (Some v) = true →
  ∃ s',
    writeProperty normurl propname (Some v) false s = (s', inr tt)
    ∧ (getProperty normurl propname s').2 = inr (Some v)
    ∧ ∀ R p, R ≠ normurl ∨ p ≠ propname →
        (getProperty R p s').2 = (getProperty R p s).2.
Proof.
  intros Hwf Hpre.
  destruct (writeProperty_spec normurl propname v s Hwf Hpre)
    as (s' & m & Hrun & Hwf' & _ & Hm & Hm').
  exists s'. split; [done|].
  rewrite getProperty_answer by done. unfold properties_of at 1.
  rewrite Hm'. simpl. rewrite lookup_insert_eq. simpl.
  rewrite lookup_insert_eq. split; [done|].
  intros R p Hother. rewrite !getProperty_answer by done.
  unfold properties_of. rewrite Hm, Hm'. simpl.
  destruct (decide (normurl = R)) as [<-|HR].
  - rewrite lookup_insert_eq. simpl.
    destruct Hother as [?|Hp]; [done|]. rewrite lookup_insert_ne by done.
    by destruct (m !! normurl).
  - by rewrite lookup_insert_ne.
Qed.

(** X5. [removeProperty] returns; afterwards [getProperty] returns [None]
    for the resource and name it removes and what it returned before for
    every other pair, and a resource that had a property set still has
    one, empty when its last property was removed. *)
Theorem removeProperty_removes_one_answer normurl propname s :
  wf s →
  ∃ s',
    removeProperty normurl propname false s = (s', inr tt)
    ∧ (getProperty normurl propname s').2 = inr None
    ∧ (∀ R p, R ≠ normurl ∨ p ≠ propname →
         (getProperty R p s').2 = (getProperty R p s).2)
    ∧ properties_of normurl s'
      = delete propname <$> properties_of normurl s.
Proof.
  intros Hwf.
  destruct (removeProperty_spec normurl propname s Hwf)
    as (s' & m & Hrun & Hwf' & _ & Hm & Hm' & _).
  assert (Hset : properties_of normurl s'
                 = delete propname <$> properties_of normurl s).
  { unfold properties_of. rewrite Hm, Hm'. simpl.
    destruct (m !! normurl) as [ps|] eqn:HR; simpl.
    - by rewrite lookup_insert_eq.
    - by rewrite HR. }
  exists s'. split; [done|]. split; [|split; [|done]].
  - rewrite getProperty_answer, Hset by done.
    destruct (properties_of normurl s) as [ps|]; simpl; [|done].
    by rewrite lookup_delete_eq.
  - intros R p Hother. rewrite !getProperty_answer by done.
    destruct (decide (normurl = R)) as [<-|HR].
    + rewrite Hset. destruct Hother as [?|Hp]; [done|].
      destruct (properties_of normurl s) as [ps|]; simpl; [|done].
      by rewrite lookup_delete_ne.
    + unfold properties_of. rewrite Hm, Hm'. simpl.
      destruct (m !! normurl) as [ps|]; [|done].
      by rewrite lookup_insert_ne.
Qed.

(** X6. The last write wins: writing [v1] and then [v2] under the same
    resource and name leaves the snapshot that writing [v2] alone
    leaves. *)
Theorem writeProperty_last_write_wins normurl propname v1 v2 s :
  wf s → precondition normurl propname (Some v1) = true →
  ∃ s1 s2 s2',
    writeProperty normurl propname (Some v1) false s = (s1, inr tt)
    ∧ writeProperty normurl propname (Some v2) false s1 = (s2, inr tt)
    ∧ writeProperty normurl propname (Some v2) false s = (s2', inr tt)
    ∧ snapshot s2 = snapshot s2'.
Proof.
  intros Hwf Hpre1.
  assert (Hpre2 : precondition normurl propname (Some v2) = true).
  { apply precondition_true in Hpre1 as (H1 & H2 & _).
    apply precondition_true. eauto. }
  destruct (writeProperty_spec normurl propname v1 s Hwf Hpre1)
    as (s1 & m & Hrun1 & Hwf1 & _ & Hm & Hm1).
  destruct (writeProperty_spec normurl propname v2 s1 Hwf1 Hpre2)
    as (s2 & m1 & Hrun2 & _ & _ & Hm1' & Hm2).
  destruct (writeProperty_spec normurl propname v2 s Hwf Hpre2)
    as (s2' & m' & Hrun2' & _ & _ & Hm' & Hm2').
  exists s1, s2, s2'. split; [done|]. split; [done|]. split; [done|].
  rewrite Hm1 in Hm1'. injection Hm1' as <-.
  rewrite Hm in Hm'. injection Hm' as <-.
  rewrite Hm2, Hm2'. f_equal. rewrite lookup_insert_eq. simpl.
  by rewrite !insert_insert_eq.
Qed.

(** X7. [copyProperties] changes the destination only: every other
    resource keeps its property set, the destination gets the property
    set of the source in place of its own (nothing is merged) and keeps
    its own when the source has none; copying a resource onto itself
    leaves the snapshot as it was. *)
Theorem copyProperties_changes_destination_only srcurl desturl s :
  wf s →
  ∃ s',
    copyProperties srcurl desturl s = (s', inr tt)
    ∧ (∀ R, R ≠ desturl → properties_of R s' = properties_of R s)
    ∧ properties_of desturl s'
      = match properties_of srcurl s with
        | Some ps => Some ps
        | None => properties_of desturl s
        end
    ∧ (srcurl = desturl → snapshot s' = snapshot s).
Proof.
  intros Hwf.
  destruct (copyProperties_spec srcurl desturl s Hwf)
    as (s' & m & Hrun & _ & _ & Hm & Hm' & _).
  exists s'. split; [done|]. unfold properties_of. rewrite Hm, Hm'. simpl.
  destruct (m !! srcurl) as [ps|] eqn:HS.
  - split; [|split].
    + intros R Hne. by rewrite lookup_insert_ne.
    + by rewrite lookup_insert_eq.
    + intros <-. f_equal. by apply insert_id.
  - done.
Qed.

(** ** Diagnostics and the finalizer *)

Lemma _lazyOpen_returns s : ∃ s', _lazyOpen s = (s', inr tt).
Proof.
  destruct (cls s) as [|storagePath] eqn:Ec.
  - rewrite _lazyOpen_in_memory by done. by eexists.
  - destruct (_loaded s) eqn:El.
    + erewrite _lazyOpen_shelve_loaded by done. by eexists.
    + erewrite _lazyOpen_shelve_closed by done. by eexists.
Qed.

(** X8. [_dump] never raises, whatever the state, a store with no usable
    backend included; it leaves a loaded store as it is, and opens a store
    that is not loaded as the other methods do. *)
Theorem _dump_only_opens msg s :
  ∃ s',
    _dump msg s = (s', inr tt)
    ∧ ensure_loaded s = (s', inr tt)
    ∧ (_loaded s = true → s' = s).
Proof.
  unfold _dump, ensure_loaded, when, get, bind, ret.
  destruct (_loaded s) eqn:El; simpl.
  - exists s. by rewrite _dump_listing_eq.
  - destruct (_lazyOpen_returns s) as [s' Hopen]. rewrite Hopen.
    exists s'. split; [|done].
    destruct (2 <=? _verbose s')%Z; [done|apply _dump_listing_eq].
Qed.

(** X9. The finalizer closes whatever [_check] finds: in every state,
    also one where [_check] returns [False], [__del__] does what [_close]
    does. *)
Theorem __del___is__close s : __del__ s = _close s.
Proof.
  unfold __del__, when, get, bind, ret.
  destruct (diagnostic s); [|done]. by rewrite _check_eq.
Qed.

(** ** What survives a close *)

Lemma snapshot_shelve_closed s storagePath :
  cls s = ShelvePropertyManager storagePath → _loaded s = false →
  snapshot s = Some (file_content storagePath s).
Proof.
  intros Hc Hl. unfold snapshot, ensure_loaded, when, get, bind.
  rewrite Hl. simpl. by erewrite _lazyOpen_shelve_closed.
Qed.

Lemma snapshot_answers s1 s2 :
  wf s1 → wf s2 → snapshot s1 = snapshot s2 →
  ∀ normurl propname,
    (getProperty normurl propname s1).2
    = (getProperty normurl propname s2).2
    ∧ (getProperties normurl s1).2 = (getProperties normurl s2).2.
Proof.
  intros Hwf1 Hwf2 Hsnap normurl propname.
  rewrite !getProperty_answer, !getProperties_answer by done.
  unfold properties_of. by rewrite Hsnap.
Qed.

(** X10. A durable store survives its close: after [_close], a new
    instance on the same path has the snapshot that the closed store had,
    and answers every [getProperty] and [getProperties] as the closed
    store did. *)
Theorem durable_store_survives_close storagePath s :
  wf s → cls s = ShelvePropertyManager storagePath →
  ∃ s',
    _close s = (s', inr tt)
    ∧ snapshot (reopened s') = snapshot s
    ∧ ∀ normurl propname,
        (getProperty normurl propname (reopened s')).2
        = (getProperty normurl propname s).2
        ∧ (getProperties normurl (reopened s')).2
          = (getProperties normurl s).2.
Proof.
  intros Hwf Hc.
  assert (∃ s', _close s = (s', inr tt)
                ∧ snapshot (reopened s') = snapshot s) as (s' & Hrun & Hs).
  { destruct (_loaded s) eqn:El.
    - destruct (wf_loaded_cases s Hwf El)
        as [(Hc' & _)|(path & db & Hc' & Hd)]; [congruence|].
      rewrite Hc in Hc'. injection Hc' as <-.
      unfold _close, dict_close; unfold_monad. rewrite Hc, El, Hd. simpl.
      eexists. split; [reflexivity|].
      rewrite (snapshot_loaded s El). unfold mapping. rewrite Hd.
      unfold reopened. simpl. rewrite Hc.
      erewrite snapshot_shelve_closed by done.
      unfold file_content. simpl. by rewrite lookup_insert_eq.
    - unfold _close; unfold_monad. rewrite Hc, El. simpl.
      exists s. split; [done|]. unfold reopened. rewrite Hc.
      by rewrite !(snapshot_shelve_closed _ storagePath). }
  exists s'. split; [done|]. split; [done|].
  apply snapshot_answers; [apply wf_init|done|done].
Qed.

(** X11. An in-memory store does not: after [_close] the store is empty,
    whatever it held, and so is a new instance. *)
Theorem in_memory_store_forgets_at_close s :
  cls s = PropertyManager →
  ∃ s',
    _close s = (s', inr tt)
    ∧ snapshot s' = Some ∅
    ∧ snapshot (reopened s') = Some ∅
    ∧ ∀ normurl propname,
        (getProperty normurl propname s').2 = inr None
        ∧ (getProperties normurl s').2 = inr [].
Proof.
  intros Hc. unfold _close; unfold_monad. rewrite Hc. simpl.
  eexists. split; [reflexivity|].
  assert (Hempty :
    ∀ s0 : @state Value, cls s0 = PropertyManager → _loaded s0 = false →
         snapshot s0 = Some ∅).
  { intros s0 Hc0 Hl0. unfold snapshot, ensure_loaded, when, get, bind.
    rewrite Hl0. simpl. rewrite _lazyOpen_in_memory by done.
    unfold mapping. simpl. by rewrite fmap_empty. }
  split; [by apply Hempty|]. split; [by apply Hempty|].
  intros normurl propname.
  assert (Hwf : wf (set_loaded false (set_dict None s))).
  { split; [apply detached_not_loaded|done]. }
  rewrite getProperty_answer, getProperties_answer by done.
  unfold properties_of. rewrite Hempty by done. simpl.
  rewrite lookup_empty. simpl. by rewrite map_to_list_empty.
Qed.

(** ** The files *)












(** ** Exceptions on the states of an instance *)


(** ** The dict objects of the in-memory store *)

(** X15. In every state of an in-memory instance each resource of the dict
    refers to an allocated dict object of its own: no two resources share
    one, so that the in-place update of one property set is never seen
    through another resource. *)
Theorem in_memory_property_sets_are_not_shared s top :
  reachable s → _dict s = Some (PyDict top) →
  (∀ R l, top !! R = Some l → is_Some (heap s !! l))
  ∧ (∀ R R' l, top !! R = Some l → top !! R' = Some l → R = R').
Proof.
  intros Hreach Hd. destruct (reachable_wf s Hreach) as [_ Hb].
  rewrite Hd in Hb. destruct Hb as [_ Hr]. by apply refs_ok_alt.
Qed.

(** ** Writes in either order *)

(** X16. Two writes to different (resource, name) pairs commute: in either
    order both return and leave the same snapshot. *)
Theorem writes_to_different_properties_commute R1 p1 v1 R2 p2 v2 s :
  wf s →
  precondition R1 p1 (Some v1) = true →
  precondition R2 p2 (Some v2) = true →
  R1 ≠ R2 ∨ p1 ≠ p2 →
  ∃ s1 s12 s2 s21,
    writeProperty R1 p1 (Some v1) false s = (s1, inr tt)
    ∧ writeProperty R2 p2 (Some v2) false s1 = (s12, inr tt)
    ∧ writeProperty R2 p2 (Some v2) false s = (s2, inr tt)
    ∧ writeProperty R1 p1 (Some v1) false s2 = (s21, inr tt)
    ∧ snapshot s12 = snapshot s21.
Proof.
  intros Hwf Hpre1 Hpre2 Hne.
  destruct (writeProperty_spec R1 p1 v1 s Hwf Hpre1)
    as (s1 & m & Hrun1 & Hwf1 & _ & Hm & Hm1).
  destruct (writeProperty_spec R2 p2 v2 s1 Hwf1 Hpre2)
    as (s12 & m1 & Hrun12 & _ & _ & Hm1' & Hm12).
  destruct (writeProperty_spec R2 p2 v2 s Hwf Hpre2)
    as (s2 & m' & Hrun2 & Hwf2 & _ & Hm' & Hm2).
  destruct (writeProperty_spec R1 p1 v1 s2 Hwf2 Hpre1)
    as (s21 & m2 & Hrun21 & _ & _ & Hm2' & Hm21).
  exists s1, s12, s2, s21. repeat (split; [done|]).
  rewrite Hm1 in Hm1'. injection Hm1' as <-.
  rewrite Hm in Hm'. injection Hm' as <-.
  rewrite Hm2 in Hm2'. injection Hm2' as <-.
  rewrite Hm12, Hm21. f_equal.
  destruct (decide (R1 = R2)) as [<-|HR].
  - destruct Hne as [?|Hp]; [done|].
    rewrite !lookup_insert_eq. simpl. rewrite !insert_insert_eq.
    f_equal. by apply insert_insert_ne.
  - rewrite (lookup_insert_ne _ R1 R2) by done.
    rewrite (lookup_insert_ne _ R2 R1) by done.
    by apply insert_insert_ne.
Qed.

End Properties.

Ltac by_computation := apply (bool_decide_unpack _); vm_compute; exact I.

(** C1. In the in-memory class [_lazyOpen] has no second test of the
    loaded flag: on the loaded store [memory1], which holds the property
    [p] of [/a], it returns a store that is loaded with an empty mapping,
    and the property is gone.  In the durable class the same call on the
    loaded store [shelf1] changes nothing. *)
Theorem lazyOpen_in_memory_discards_loaded_data :
  _loaded memory1 = true
  ∧ getProperty "/a" "p" memory1 = (memory1, inr (Some "v"))
  ∧ (∃ s', _lazyOpen memory1 = (s', inr tt)
           ∧ _loaded s' = true
           ∧ mapping s' = Some ∅
           ∧ mapping s' ≠ mapping memory1
           ∧ (getProperty "/a" "p" s').2 = inr None)
  ∧ _lazyOpen shelf1 = (shelf1, inr tt).
Proof.
  split; [reflexivity|]. split; [by vm_compute|]. split.
  - eexists. split; [reflexivity|]. split; [reflexivity|].
    split; [by vm_compute|]. split; [by vm_compute|]. by vm_compute.
  - by vm_compute.
Qed.

(** ** The theorems at these stores *)

Lemma writeProperty_then_read_witness :
  wf shelf1
  ∧ precondition "/a" "q" (Some "w") = true
  ∧ ∃ s' names,
      writeProperty "/a" "q" (Some "w") false shelf1 = (s', inr tt)
      ∧ getProperty "/a" "q" s' = (s', inr (Some "w"))
      ∧ getProperties "/a" s' = (s', inr names)
      ∧ "q" ∈ names.
Proof.
  split; [by_computation|]. split; [reflexivity|].
  apply (writeProperty_then_read "/a" "q" "w" shelf1);
    [by_computation|reflexivity].
Defined.

Lemma copyProperties_clone_is_independent_witness :
  wf memory1
  ∧ properties_of "/a" memory1 = Some {["p" := "v"]}
  ∧ "/a" ≠ "/b"
  ∧ precondition "/a" "q" (Some "w") = true
  ∧ properties_of "/none" memory1 = None
  ∧ _loaded memory1 = true
  ∧ (∃ s1,
       copyProperties "/a" "/b" memory1 = (s1, inr tt)
       ∧ properties_of "/b" s1 = Some {["p" := "v"]}
       ∧ (∃ s2, writeProperty "/a" "q" (Some "w") false s1 = (s2, inr tt)
                ∧ properties_of "/a" s2
                  = Some (<["q" := "w"]> {["p" := "v"]})
                ∧ properties_of "/b" s2 = Some {["p" := "v"]})
       ∧ (∃ s2, removeProperty "/b" "p" false s1 = (s2, inr tt)
                ∧ properties_of "/b" s2 = Some (delete "p" {["p" := "v"]})
                ∧ properties_of "/a" s2 = Some {["p" := "v"]}))
  ∧ copyProperties "/none" "/a" memory1 = (memory1, inr tt).
Proof.
  assert (Hwf : wf memory1) by by_computation.
  assert (HS : properties_of "/a" memory1 = Some {["p" := "v"]})
    by (by vm_compute).
  assert (Hne : "/a" ≠ "/b") by (by vm_compute).
  assert (Hpre : precondition "/a" "q" (Some "w") = true) by reflexivity.
  assert (Hnone : properties_of "/none" memory1 = None) by (by vm_compute).
  assert (Hl : _loaded memory1 = true) by reflexivity.
  destruct (copyProperties_clone_is_independent memory1 Hwf)
    as [Hcopy Hnoop].
  repeat (split; [assumption|]). split.
  - destruct (Hcopy "/a" "/b" _ HS)
      as (s1 & Hrun & _ & HD & _ & Hind).
    destruct (Hind Hne) as (HwS & _ & _ & HrD).
    exists s1. split; [exact Hrun|]. split; [exact HD|].
    split; [exact (HwS "q" "w" Hpre)|exact (HrD "p")].
  - destruct (Hnoop "/none" "/a" Hnone) as (_ & _ & Hsame).
    exact (Hsame Hl).
Defined.

Lemma removeProperty_absent_is_noop_witness :
  wf memory1
  ∧ properties_of "/a" memory1 ≫= (.!! "q") = None
  ∧ _loaded memory1 = true
  ∧ removeProperty "/a" "q" false memory1 = (memory1, inr tt)
  ∧ snapshot (removeProperty "/a" "q" false memory1).1 = snapshot memory1.
Proof.
  assert (Hwf : wf memory1) by by_computation.
  assert (Habs : properties_of "/a" memory1 ≫= (.!! "q") = None)
    by (by vm_compute).
  assert (Hl : _loaded memory1 = true) by reflexivity.
  destruct (removeProperty_absent_is_noop "/a" "q" memory1 Hwf Habs)
    as (_ & Hsnap & Hsame).
  repeat (split; [assumption|]). split; [exact (Hsame Hl)|exact Hsnap].
Defined.

Lemma writeProperty_precondition_fault_witness :
  precondition "a" "p" (Some "v") = false
  ∧ writeProperty "a" "p" (Some "v") false memory1
    = (memory1, inl AssertionError)
  ∧ precondition "/a" "p" (Some "v") = true
  ∧ wf shelf0
  ∧ (writeProperty "/a" "p" (Some "v") false shelf0).2 = inr tt.
Proof.
  split; [reflexivity|]. split.
  - destruct (writeProperty_precondition_fault "a" "p" (Some "v") false
                memory1) as (Hfault & _ & _).
    apply Hfault. reflexivity.
  - split; [reflexivity|]. split; [by_computation|].
    destruct (writeProperty_precondition_fault "/a" "p" (Some "v") false
                shelf0) as (_ & _ & Hreturns).
    apply Hreturns; [reflexivity|by_computation].
Defined.

Lemma check_never_propagates_witness :
  _loaded broken = true
  ∧ (dict_items broken).2 = inl AttributeError
  ∧ _check "" broken = (broken, inr false)
  ∧ _check "" memory1 = (memory1, inr true).
Proof.
  split; [reflexivity|]. split; [reflexivity|]. split.
  - destruct (check_never_propagates "" broken) as (ok & Hrun & Hfalse & _).
    assert (Hok : ok = false).
    { apply Hfalse. split; [reflexivity|]. eexists. reflexivity. }
    rewrite Hok in Hrun. exact Hrun.
  - destruct (check_never_propagates "" memory1) as (ok & Hrun & _ & Htrue).
    assert (Hok : ok = true).
    { apply Htrue. right. eexists. reflexivity. }
    rewrite Hok in Hrun. exact Hrun.
Defined.

Lemma close_idempotent_witness :
  wf shelf1
  ∧ ∃ s', _close shelf1 = (s', inr tt)
          ∧ _loaded s' = false ∧ _dict s' = None
          ∧ _close s' = (s', inr tt).
Proof.
  split; [by_computation|].
  apply (close_idempotent shelf1). by_computation.
Defined.

Lemma loaded_iff_attached_invariant_witness :
  loaded_iff_attached shelf1
  ∧ loaded_iff_attached (_lazyOpen shelf1).1
  ∧ loaded_iff_attached
      (writeProperty "/b" "q" (Some "w") false shelf1).1
  ∧ loaded_iff_attached (copyProperties "/a" "/b" shelf1).1
  ∧ loaded_iff_attached (_close shelf1).1.
Proof.
  assert (H : loaded_iff_attached shelf1) by by_computation.
  destruct (loaded_iff_attached_invariant shelf1 H)
    as (_ & Hopen & _ & _ & Hwrite & _ & _ & Hcopy & Hclose & _).
  split; [exact H|]. split; [exact Hopen|].
  split; [apply Hwrite|]. split; [apply Hcopy|exact Hclose].
Defined.

(** ** The further properties at these stores *)

Lemma removeProperties_removes_resource_witness :
  wf memory1
  ∧ ∃ s',
      removeProperties "/a" memory1 = (s', inr tt)
      ∧ (∀ propname, (getProperty "/a" propname s').2 = inr None)
      ∧ (getProperties "/a" s').2 = inr []
      ∧ (∀ R, R ≠ "/a" → properties_of R s' = properties_of R memory1).
Proof.
  split; [by_computation|].
  apply (removeProperties_removes_resource "/a" memory1). by_computation.
Defined.

Lemma reading_missing_returns_nothing_witness :
  wf shelf1
  ∧ properties_of "/none" shelf1 = None
  ∧ (getProperty "/none" "p" shelf1).2 = inr None
  ∧ (getProperties "/none" shelf1).2 = inr []
  ∧ properties_of "/a" shelf1 = Some {["p" := "v"]}
  ∧ ({["p" := "v"]} : gmap string string) !! "q" = None
  ∧ (getProperty "/a" "q" shelf1).2 = inr None.
Proof.
  assert (Hwf : wf shelf1) by by_computation.
  assert (Hnone : properties_of "/none" shelf1 = None) by (by vm_compute).
  assert (Hsome : properties_of "/a" shelf1 = Some {["p" := "v"]})
    by (by vm_compute).
  assert (Hq : ({["p" := "v"]} : gmap string string) !! "q" = None)
    by (by vm_compute).
  destruct (reading_missing_returns_nothing "/none" "p" shelf1 Hwf)
    as (_ & Habsent & _).
  destruct (reading_missing_returns_nothing "/a" "q" shelf1 Hwf)
    as (_ & _ & Hname).
  destruct (Habsent Hnone) as [Hget Hlist].
  repeat (split; [assumption|]). exact (Hname _ Hsome Hq).
Defined.

Lemma getProperties_lists_what_getProperty_finds_witness :
  wf memory1
  ∧ ∃ names,
      (getProperties "/a" memory1).2 = inr names
      ∧ NoDup names
      ∧ ∀ propname,
          propname ∈ names
          ↔ ∃ v, (getProperty "/a" propname memory1).2 = inr (Some v).
Proof.
  split; [by_computation|].
  apply (getProperties_lists_what_getProperty_finds "/a" memory1).
  by_computation.
Defined.

Lemma writeProperty_changes_one_answer_witness :
  wf memory1
  ∧ precondition "/a" "q" (Some "w") = true
  ∧ ∃ s',
      writeProperty "/a" "q" (Some "w") false memory1 = (s', inr tt)
      ∧ (getProperty "/a" "q" s').2 = inr (Some "w")
      ∧ ∀ R p, R ≠ "/a" ∨ p ≠ "q" →
          (getProperty R p s').2 = (getProperty R p memory1).2.
Proof.
  split; [by_computation|]. split; [reflexivity|].
  apply (writeProperty_changes_one_answer "/a" "q" "w" memory1);
    [by_computation|reflexivity].
Defined.

Lemma removeProperty_removes_one_answer_witness :
  wf shelf1
  ∧ ∃ s',
      removeProperty "/a" "p" false shelf1 = (s', inr tt)
      ∧ (getProperty "/a" "p" s').2 = inr None
      ∧ (∀ R p, R ≠ "/a" ∨ p ≠ "p" →
           (getProperty R p s').2 = (getProperty R p shelf1).2)
      ∧ properties_of "/a" s' = delete "p" <$> properties_of "/a" shelf1.
Proof.
  split; [by_computation|].
  apply (removeProperty_removes_one_answer "/a" "p" shelf1). by_computation.
Defined.

Lemma writeProperty_last_write_wins_witness :
  wf memory1
  ∧ precondition "/a" "p" (Some "w1") = true
  ∧ ∃ s1 s2 s2',
      writeProperty "/a" "p" (Some "w1") false memory1 = (s1, inr tt)
      ∧ writeProperty "/a" "p" (Some "w2") false s1 = (s2, inr tt)
      ∧ writeProperty "/a" "p" (Some "w2") false memory1 = (s2', inr tt)
      ∧ snapshot s2 = snapshot s2'.
Proof.
  split; [by_computation|]. split; [reflexivity|].
  apply (writeProperty_last_write_wins "/a" "p" "w1" "w2" memory1);
    [by_computation|reflexivity].
Defined.

Lemma copyProperties_changes_destination_only_witness :
  wf memory1
  ∧ ∃ s',
      copyProperties "/a" "/b" memory1 = (s', inr tt)
      ∧ (∀ R, R ≠ "/b" → properties_of R s' = properties_of R memory1)
      ∧ properties_of "/b" s'
        = match properties_of "/a" memory1 with
          | Some ps => Some ps
          | None => properties_of "/b" memory1
          end
      ∧ ("/a" = "/b" → snapshot s' = snapshot memory1).
Proof.
  split; [by_computation|].
  apply (copyProperties_changes_destination_only "/a" "/b" memory1).
  by_computation.
Defined.

Lemma _dump_only_opens_witness :
  _loaded broken = true ∧ _dump "" broken = (broken, inr tt).
Proof.
  split; [reflexivity|].
  destruct (_dump_only_opens "" broken) as (s' & Hrun & _ & Hsame).
  rewrite (Hsame eq_refl) in Hrun. exact Hrun.
Defined.

Lemma durable_store_survives_close_witness :
  wf shelf1
  ∧ cls shelf1 = ShelvePropertyManager "/var/wsgidav/props.shelve"
  ∧ ∃ s',
      _close shelf1 = (s', inr tt)
      ∧ snapshot (reopened s') = snapshot shelf1
      ∧ ∀ normurl propname,
          (getProperty normurl propname (reopened s')).2
          = (getProperty normurl propname shelf1).2
          ∧ (getProperties normurl (reopened s')).2
            = (getProperties normurl shelf1).2.
Proof.
  split; [by_computation|]. split; [reflexivity|].
  apply (durable_store_survives_close "/var/wsgidav/props.shelve" shelf1);
    [by_computation|reflexivity].
Defined.

Lemma in_memory_store_forgets_at_close_witness :
  cls memory1 = PropertyManager
  ∧ ∃ s',
      _close memory1 = (s', inr tt)
      ∧ snapshot s' = Some ∅
      ∧ snapshot (reopened s') = Some ∅
      ∧ ∀ normurl propname,
          (getProperty normurl propname s').2 = inr None
          ∧ (getProperties normurl s').2 = inr [].
Proof.
  split; [reflexivity|].
  apply (in_memory_store_forgets_at_close memory1). reflexivity.
Defined.


Lemma reachable_memory1 : reachable memory1.
Proof.
  exact (reachable_call (call_writeProperty "/a" "p" (Some "v") false)
           memory0 (reachable_init PropertyManager ∅ ∅)).
Defined.




Lemma in_memory_property_sets_are_not_shared_witness :
  reachable memory1
  ∧ _dict memory1 = Some (PyDict {["/a" := 1%positive]})
  ∧ (∀ R l, ({["/a" := 1%positive]} : gmap string loc) !! R = Some l →
       is_Some (heap memory1 !! l))
  ∧ (∀ R R' l, ({["/a" := 1%positive]} : gmap string loc) !! R = Some l →
       ({["/a" := 1%positive]} : gmap string loc) !! R' = Some l → R = R').
Proof.
  split; [exact reachable_memory1|].
  assert (Hd : _dict memory1 = Some (PyDict {["/a" := 1%positive]}))
    by (by vm_compute).
  split; [exact Hd|].
  exact (in_memory_property_sets_are_not_shared memory1 _
           reachable_memory1 Hd).
Defined.

Lemma writes_to_different_properties_commute_witness :
  wf shelf1
  ∧ precondition "/a" "q" (Some "w") = true
  ∧ precondition "/b" "p" (Some "x") = true
  ∧ ("/a" ≠ "/b" ∨ "q" ≠ "p")
  ∧ ∃ s1 s12 s2 s21,
      writeProperty "/a" "q" (Some "w") false shelf1 = (s1, inr tt)
      ∧ writeProperty "/b" "p" (Some "x") false s1 = (s12, inr tt)
      ∧ writeProperty "/b" "p" (Some "x") false shelf1 = (s2, inr tt)
      ∧ writeProperty "/a" "q" (Some "w") false s2 = (s21, inr tt)
      ∧ snapshot s12 = snapshot s21.
Proof.
  assert (Hne : "/a" ≠ "/b" ∨ "q" ≠ "p") by (left; by vm_compute).
  split; [by_computation|]. split; [reflexivity|]. split; [reflexivity|].
  split; [exact Hne|].
  apply (writes_to_different_properties_commute
           "/a" "q" "w" "/b" "p" "x" shelf1);
    [by_computation|reflexivity|reflexivity|exact Hne].
Defined.
